(** * Basic image processing: a shallow embedding of [basic_image_processing.py]

    The Python module works on NumPy arrays through OpenCV.  The embedding
    has two layers.

    - Values: an array is the nested list Python shows for it
      ([img[y][x]] is a sample of a 2-D array and a list of channel samples
      of a 3-D one).  The OpenCV calls whose result is fixed by their
      documentation ([cv2.rotate], [cv2.flip], axis-parallel [cv2.line],
      the channel check of [cv2.cvtColor], [cv2.contourArea],
      [cv2.boundingRect]) are functions on these values.
    - Programs: every function of the module is a computation over a store
      of array objects, so that [.copy()], the in-place drawing calls and
      the aliasing of a returned argument are visible.

    The OpenCV stages whose output is implementation-defined (the luminance
    weights, the blur, the edge detector, the contour tracer and the thick
    rectangle stroke) are the fields of a record [vision]; every theorem
    holds for all of its inhabitants. *)

From Stdlib Require Import ZArith QArith Lqa String.
From stdpp Require Import base list.
From Stdlib Require Import DecimalString.

Local Open Scope Z_scope.

(** ** Arrays as values *)

(** A grid is a list of rows. *)
Abbreviation grid A := (list (list A)).

(** A NumPy array of dtype uint8: 2-D (one sample per pixel) or 3-D (a list
    of channel samples per pixel). *)
Inductive ndarray : Type :=
  | Gray (g : grid Z)
  | Color (c : grid (list Z)).

Definition first_row {A} (g : grid A) : list A := default [] (head g).

(** [img.shape]: the row count, the length of a row and, for a 3-D array,
    the length of a pixel.  On a rectangular array with at least one row
    and one column this is NumPy's shape. *)
Definition height (v : ndarray) : nat :=
  match v with Gray g => length g | Color c => length c end.

Definition width (v : ndarray) : nat :=
  match v with
  | Gray g => length (first_row g)
  | Color c => length (first_row c)
  end.

Definition pixel_channels (c : grid (list Z)) : nat :=
  length (default [] (head (first_row c))).

Definition shape (v : ndarray) : list nat :=
  match v with
  | Gray g => [height v; width v]
  | Color c => [height v; width v; pixel_channels c]
  end.

(** [img.size]: the number of samples stored. *)
Definition size (v : ndarray) : nat :=
  match v with
  | Gray g => length (concat g)
  | Color c => length (concat (concat c))
  end.

(** The number of channels OpenCV sees: 1 for a 2-D array. *)
Definition nchannels (v : ndarray) : nat :=
  match v with Gray _ => 1%nat | Color c => pixel_channels c end.

(** The buffer invariant of the data model: rectangular, at least one row
    and one column, and one channel (a 2-D array) or three (a 3-D array
    whose pixels all have three samples). *)
Definition rect {A} (H W : nat) (g : grid A) : Prop :=
  length g = H ∧ Forall (λ row, length row = W) g.

Definition well_formed (v : ndarray) : Prop :=
  (1 ≤ height v)%nat ∧ (1 ≤ width v)%nat ∧
  match v with
  | Gray g => rect (height v) (width v) g
  | Color c =>
      rect (height v) (width v) c ∧
      pixel_channels c = 3%nat ∧
      Forall (Forall (λ px, length px = 3%nat)) c
  end.

(** The sample (or channel list) at row [y], column [x]. *)
Definition at_ {A} (g : grid A) (y x : nat) : option A :=
  row ← g !! y; row !! x.

(** ** Geometry: [cv2.flip] and [cv2.rotate] *)

Section Geometry.
Context {A : Type}.

(** Columns of a grid whose rows have [W] entries. *)
Fixpoint transpose_w (W : nat) (g : grid A) : grid A :=
  match g with
  | [] => replicate W []
  | r :: rs => zip_with cons r (transpose_w W rs)
  end.

Definition transpose (g : grid A) : grid A :=
  transpose_w (length (first_row g)) g.

(** A column extended at its end, as the transpose sees a row appended. *)
Definition snoc (col : list A) (a : A) : list A := col ++ [a].

(** [cv2.flip(src, 1)]: every row reversed. *)
Definition flip_horizontal (g : grid A) : grid A := map (@rev A) g.
(** [cv2.flip(src, 0)]: the rows in reverse order. *)
Definition flip_vertical (g : grid A) : grid A := rev g.
(** [cv2.flip(src, -1)]: both. *)
Definition flip_both (g : grid A) : grid A := rev (map (@rev A) g).

(** [cv2.rotate]: OpenCV transposes and then flips. *)
Definition rot90_cw (g : grid A) : grid A := flip_horizontal (transpose g).
Definition rot180 (g : grid A) : grid A := flip_both g.
Definition rot90_ccw (g : grid A) : grid A := flip_vertical (transpose g).
End Geometry.

Inductive rotate_code : Type :=
  | ROTATE_90_CLOCKWISE
  | ROTATE_180
  | ROTATE_90_COUNTERCLOCKWISE.

Definition on_grid (f : ∀ A, grid A → grid A) (v : ndarray) : ndarray :=
  match v with
  | Gray g => Gray (f Z g)
  | Color c => Color (f (list Z) c)
  end.

Definition rotate_value (code : rotate_code) : ndarray → ndarray :=
  match code with
  | ROTATE_90_CLOCKWISE => on_grid (@rot90_cw)
  | ROTATE_180 => on_grid (@rot180)
  | ROTATE_90_COUNTERCLOCKWISE => on_grid (@rot90_ccw)
  end.

Definition flip_value (flip_code : Z) : ndarray → ndarray :=
  if flip_code =? 0 then on_grid (@flip_vertical)
  else if 0 <? flip_code then on_grid (@flip_horizontal)
  else on_grid (@flip_both).

(** ** Drawing: [cv2.line] on axis-parallel segments *)

Definition point : Type := (Z * Z)%type.
Definition scalar : Type := list Z.

(** Overwrite the pixels selected by [on]; pixels outside the array do not
    exist, which is OpenCV's clipping of a primitive to the image. *)
Definition paint {A} (on : Z → Z → bool) (colour : A) (g : grid A) : grid A :=
  imap (λ y row,
    imap (λ x p, if on (Z.of_nat x) (Z.of_nat y) then colour else p) row) g.

(** A colour tuple is padded with zeros to four components; an array with
    [C] channels receives its first [C] components. *)
Definition to_sample (color : scalar) : Z := default 0 (head color).
Definition to_pixel (C : nat) (color : scalar) : list Z :=
  take C (color ++ [0; 0; 0; 0]).

Definition paint_value (on : Z → Z → bool) (color : scalar) (v : ndarray)
  : ndarray :=
  match v with
  | Gray g => Gray (paint on (to_sample color) g)
  | Color c => Color (paint on (to_pixel (pixel_channels c) color) c)
  end.

Definition axis_parallel (pt1 pt2 : point) : bool :=
  (pt1.1 =? pt2.1) || (pt1.2 =? pt2.2).

(** The pixels of a one-pixel-wide axis-parallel segment, end points
    included. *)
Definition on_segment (pt1 pt2 : point) (x y : Z) : bool :=
  (Z.min pt1.1 pt2.1 <=? x) && (x <=? Z.max pt1.1 pt2.1) &&
  (Z.min pt1.2 pt2.2 <=? y) && (y <=? Z.max pt1.2 pt2.2).

Definition line_value (pt1 pt2 : point) (color : scalar) : ndarray → ndarray :=
  paint_value (on_segment pt1 pt2) color.

(** ** Colour conversion: the channel check of [cv2.cvtColor] *)

Definition bgr_to_gray (luma : Z → Z → Z → Z) (c : grid (list Z)) : grid Z :=
  map (map (λ px,
    match px with
    | b :: g :: r :: _ => luma b g r
    | _ => 0
    end)) c.

(** ** Contours: [cv2.contourArea] and [cv2.boundingRect] *)

Definition contour : Type := list point.

(** The shoelace sum over the closed polygon, halved, in absolute value.
    OpenCV accumulates it in double precision, which is exact for pixel
    coordinates; the rational is that value. *)
Definition shoelace (c : contour) : Z :=
  match last c with
  | None => 0
  | Some p_last =>
      fst (fold_left
             (λ '(a00, prev) p, (a00 + (prev.1 * p.2 - prev.2 * p.1), p))
             c (0, p_last))
  end.

Definition contourArea (c : contour) : Q := Z.abs (shoelace c) # 2.

(** [(x, y, w, h)] of the smallest upright rectangle holding the points. *)
Definition boundingRect (c : contour) : Z * Z * Z * Z :=
  match c with
  | [] => (0, 0, 0, 0)
  | p :: ps =>
      let xmin := fold_left Z.min (map fst ps) p.1 in
      let xmax := fold_left Z.max (map fst ps) p.1 in
      let ymin := fold_left Z.min (map snd ps) p.2 in
      let ymax := fold_left Z.max (map snd ps) p.2 in
      (xmin, ymin, xmax - xmin + 1, ymax - ymin + 1)
  end.

(** ** The implementation-defined OpenCV stages *)

Record vision : Type := {
  (** the luminance of a (blue, green, red) pixel in [COLOR_BGR2GRAY] *)
  luma : Z → Z → Z → Z;
  (** [cv2.GaussianBlur(src, ksize, sigmaX)] *)
  GaussianBlur : grid Z → Z * Z → Z → grid Z;
  (** [cv2.Canny(image, threshold1, threshold2)] *)
  Canny : grid Z → Z → Z → grid Z;
  (** [cv2.findContours(image, RETR_EXTERNAL, CHAIN_APPROX_SIMPLE)[0]] *)
  findContours : grid Z → list contour;
  (** the pixels [cv2.rectangle(img, pt1, pt2, color, thickness)] leaves *)
  rectangle_value : point → point → scalar → Z → ndarray → ndarray;
  (** drawing keeps the channel count of an array it accepts *)
  rectangle_nchannels : ∀ pt1 pt2 color thickness v,
    (nchannels v ≤ 4)%nat →
    nchannels (rectangle_value pt1 pt2 color thickness v) = nchannels v
}.

(** ** The store of array objects *)

Inductive exn : Type :=
  | cv2_error            (** raised by an OpenCV assertion *)
  | ZeroDivisionError    (** [//] by zero *)
  | NotModelled          (** a call outside the modelled fragment of OpenCV *)
  | DanglingRef.         (** a name bound to no object; unreachable in Python *)

Inductive result (A : Type) : Type :=
  | Ok (a : A)
  | Raise (e : exn).
Arguments Ok {A} a.
Arguments Raise {A} e.

(** An object is named by its position in the store. *)
Abbreviation ref := nat (only parsing).
Abbreviation heap := (list ndarray) (only parsing).

(** A computation runs from a store to an outcome and a store; the store
    survives an exception. *)
Definition M (A : Type) : Type := heap → result A * heap.

#[global] Instance M_ret : MRet M := λ A a h, (Ok a, h).
#[global] Instance M_bind : MBind M := λ A B f m h,
  match m h with
  | (Ok a, h') => f a h'
  | (Raise e, h') => (Raise e, h')
  end.

Definition raise {A} (e : exn) : M A := λ h, (Raise e, h).

Definition alloc (v : ndarray) : M ref := λ h, (Ok (length h), h ++ [v]).

Definition load (r : ref) : M ndarray := λ h,
  match h !! r with
  | Some v => (Ok v, h)
  | None => (Raise DanglingRef, h)
  end.

Definition store (r : ref) (v : ndarray) : M unit := λ h, (Ok (), <[r := v]> h).

(** [for x in xs: body] *)
Fixpoint for_ {A} (xs : list A) (body : A → M unit) : M unit :=
  match xs with
  | [] => mret ()
  | x :: xs' => body x;; for_ xs' body
  end.

(** [range(a, b)] *)
Definition range (a b : Z) : list Z :=
  map (λ i, a + Z.of_nat i) (seq 0 (Z.to_nat (b - a))).

(** [a // b] on Python integers *)
Definition floordiv (a b : Z) : M Z :=
  if b =? 0 then raise ZeroDivisionError else mret (a / b).

(** ** Python values of the property dictionary *)

Inductive pyval : Type :=
  | PyInt (n : Z)
  | PyTuple (t : list Z)
  | PyStr (s : string).

(** A dict literal keeps its insertion order: an association list. *)
Definition pydict : Type := list (string * pyval).

Fixpoint dict_get (d : pydict) (k : string) : option pyval :=
  match d with
  | [] => None
  | (k', v) :: d' => if String.eqb k k' then Some v else dict_get d' k
  end.

(** ** The OpenCV and NumPy calls as store operations *)

(** [img.shape[:2]] as Python integers. *)
Definition shape_hw (img : ref) : M (Z * Z) :=
  v ← load img; mret (Z.of_nat (height v), Z.of_nat (width v)).

(** [img.copy()]: a new object with the same samples. *)
Definition ndarray_copy (img : ref) : M ref :=
  v ← load img; alloc v.

(** [cv2.rotate(src, code)] and [cv2.flip(src, flipCode)] return a new
    array. *)
Definition cv2_rotate (src : ref) (code : rotate_code) : M ref :=
  v ← load src; alloc (rotate_value code v).

Definition cv2_flip (src : ref) (flip_code : Z) : M ref :=
  v ← load src; alloc (flip_value flip_code v).

(** [cv2.line(img, pt1, pt2, color, thickness)] draws into [img].  The
    drawing functions reject arrays of more than four channels; segments
    that are not axis-parallel and strokes other than one pixel are outside
    the modelled fragment. *)
Definition cv2_line (img : ref) (pt1 pt2 : point) (color : scalar)
    (thickness : Z) : M unit :=
  v ← load img;
  if (4 <? nchannels v)%nat then raise cv2_error
  else if axis_parallel pt1 pt2 && (thickness =? 1)
  then store img (line_value pt1 pt2 color v)
  else raise NotModelled.

Section Program.
Context (cv : vision).

(** [cv2.cvtColor(src, cv2.COLOR_BGR2GRAY)]: the source must have three
    or four channels; the result is a new 2-D array. *)
Definition cv2_cvtColor_BGR2GRAY (src : ref) : M ref :=
  v ← load src;
  match v with
  | Gray _ => raise cv2_error
  | Color c =>
      if (pixel_channels c =? 3)%nat || (pixel_channels c =? 4)%nat
      then alloc (Gray (bgr_to_gray (luma cv) c))
      else raise cv2_error
  end.

(** [cv2.GaussianBlur] and [cv2.Canny] take and return a one-channel
    array here. *)
Definition cv2_GaussianBlur (src : ref) (ksize : Z * Z) (sigma : Z) : M ref :=
  v ← load src;
  match v with
  | Gray g => alloc (Gray (GaussianBlur cv g ksize sigma))
  | Color _ => raise NotModelled
  end.

Definition cv2_Canny (image : ref) (threshold1 threshold2 : Z) : M ref :=
  v ← load image;
  match v with
  | Gray g => alloc (Gray (Canny cv g threshold1 threshold2))
  | Color _ => raise NotModelled
  end.

Definition cv2_findContours (image : ref) : M (list contour) :=
  v ← load image;
  match v with
  | Gray g => mret (findContours cv g)
  | Color _ => raise cv2_error
  end.

(** [cv2.rectangle(img, pt1, pt2, color, thickness)] draws into [img]. *)
Definition cv2_rectangle (img : ref) (pt1 pt2 : point) (color : scalar)
    (thickness : Z) : M unit :=
  v ← load img;
  if (4 <? nchannels v)%nat then raise cv2_error
  else store img (rectangle_value cv pt1 pt2 color thickness v).

(** ** The functions of the module *)

Definition to_grayscale (img_bgr : ref) : M ref :=
  gray ← cv2_cvtColor_BGR2GRAY img_bgr;
  mret gray.

Definition get_properties (img_bgr : ref) : M pydict :=
  v ← load img_bgr;
  let shp := Z.of_nat <$> shape v in
  let h := default 0 (shp !! 0%nat) in
  let w := default 0 (shp !! 1%nat) in
  let channels :=
    if (length shp =? 3)%nat then default 0 (shp !! 2%nat) else 1 in
  mret [ ("Width"%string, PyInt w);
         ("Height"%string, PyInt h);
         ("Channels"%string, PyInt channels);
         ("Shape"%string, PyTuple shp);
         ("Data type"%string, PyStr "uint8");
         ("Total pixels"%string, PyInt (Z.of_nat (size v))) ].

Definition rotate_image (img_bgr : ref) (angle : Z) : M ref :=
  if angle =? 90 then cv2_rotate img_bgr ROTATE_90_CLOCKWISE
  else if angle =? 180 then cv2_rotate img_bgr ROTATE_180
  else if angle =? 270 then cv2_rotate img_bgr ROTATE_90_COUNTERCLOCKWISE
  else mret img_bgr.

Definition mirror_image (img_bgr : ref) : M ref :=
  cv2_flip img_bgr 1.

Definition make_grid (img_bgr : ref) (rows cols : Z) : M ref :=
  '(h, w) ← shape_hw img_bgr;
  cell_h ← floordiv h rows;
  cell_w ← floordiv w cols;
  grid_img ← ndarray_copy img_bgr;
  for_ (range 1 rows) (λ r,
    let y := r * cell_h in
    cv2_line grid_img (0, y) (w, y) [0; 255; 0] 1);;
  for_ (range 1 cols) (λ c,
    let x := c * cell_w in
    cv2_line grid_img (x, 0) (x, h) [0; 255; 0] 1);;
  mret grid_img.

(** The body of [for c in contours], with the running [count]. *)
Fixpoint detect_loop (obj_img : ref) (min_area : Q) (contours : list contour)
    (count : Z) : M Z :=
  match contours with
  | [] => mret count
  | c :: rest =>
      let area := contourArea c in
      if Qlt_le_dec min_area area then
        let '(x, y, w_box, h_box) := boundingRect c in
        cv2_rectangle obj_img (x, y) (x + w_box, y + h_box) [0; 255; 0] 2;;
        detect_loop obj_img min_area rest (count + 1)
      else detect_loop obj_img min_area rest count
  end.

Definition detect_objects (img_bgr : ref) (min_area : Q) : M (ref * Z) :=
  gray ← cv2_cvtColor_BGR2GRAY img_bgr;
  blur ← cv2_GaussianBlur gray (5, 5) 0;
  edges ← cv2_Canny blur 50 150;
  contours ← cv2_findContours edges;
  obj_img ← ndarray_copy img_bgr;
  count ← detect_loop obj_img min_area contours 0;
  mret (obj_img, count).
End Program.

(** Default arguments of the module. *)
Definition default_rows : Z := 4.
Definition default_cols : Z := 4.
Definition default_min_area : Q := 500 # 1.

(** ** Derived notions used to state the properties *)

(** The channel list of the pixel at row [y], column [x]. *)
Definition pixel (v : ndarray) (y x : nat) : option (list Z) :=
  match v with
  | Gray g => (λ s, [s]) <$> at_ g y x
  | Color c => at_ c y x
  end.

(** What the colour tuple [(0, 255, 0)] leaves in a pixel of [v]. *)
Definition highlight (v : ndarray) : list Z :=
  match v with
  | Gray _ => [to_sample [0; 255; 0]]
  | Color c => to_pixel (pixel_channels c) [0; 255; 0]
  end.

(** The offsets [r * (size div n)] for [r] in [1..n-1], in the words of the
    grid overlay's description. *)
Definition line_offsets (size n : Z) : list Z :=
  map (λ r, r * (size / n)) (range 1 n).

Definition on_offsets (offsets : list Z) (i : nat) : bool :=
  existsb (Z.eqb (Z.of_nat i)) offsets.

(** The pixels of a list of segments. *)
Definition on_any (segs : list (point * point)) (x y : Z) : bool :=
  existsb (λ s, on_segment s.1 s.2 x y) segs.

(** The segments the two loops of [make_grid] draw. *)
Definition horizontal_segments (h w rows : Z) : list (point * point) :=
  map (λ r, ((0, r * (h / rows)), (w, r * (h / rows)))) (range 1 rows).

Definition vertical_segments (h w cols : Z) : list (point * point) :=
  map (λ c, ((c * (w / cols), 0), (c * (w / cols), h))) (range 1 cols).

(** A computation leaves every object of the initial store as it was: the
    final store is the initial one followed by the objects created. *)
Definition preserves_store {A} (m : M A) : Prop :=
  ∀ h, ∃ created, snd (m h) = h ++ created.

(** A computation started in a store of at least [n] objects leaves the
    first [n] as they were, and a result it returns satisfies [Q]. *)
Definition frames {A} (n : nat) (m : M A) (Q : A → Prop) : Prop :=
  ∀ h, (n ≤ length h)%nat →
    take n (snd (m h)) = take n h ∧
    (n ≤ length (snd (m h)))%nat ∧
    ∀ a, fst (m h) = Ok a → Q a.

(** The contours the detector's loop receives for a colour array. *)
Definition edge_contours (cv : vision) (c : grid (list Z)) : list contour :=
  findContours cv
    (Canny cv (GaussianBlur cv (bgr_to_gray (luma cv) c) (5, 5) 0) 50 150).

(** The test of the loop, [area > min_area], and the test the description
    words, area at least the minimum. *)
Definition exceeds (min_area : Q) (c : contour) : bool :=
  if Qlt_le_dec min_area (contourArea c) then true else false.

Definition at_least (min_area : Q) (c : contour) : bool :=
  Qle_bool min_area (contourArea c).

(** One bounding box drawn, as the loop body draws it. *)
Definition draw_box (cv : vision) (v : ndarray) (c : contour) : ndarray :=
  let '(x, y, w_box, h_box) := boundingRect c in
  rectangle_value cv (x, y) (x + w_box, y + h_box) [0; 255; 0] 2 v.

(** ** A small executable [vision]

    A stand-in for OpenCV that runs inside Rocq: the 15-bit fixed-point
    luminance, no blur, a plain threshold as edge detector, the box around
    the lit pixels as the only contour and a one-pixel outline as the
    rectangle.  It serves to run the programs on concrete arrays; the
    theorems are stated for every [vision]. *)

Definition toy_luma (b g r : Z) : Z :=
  (3735 * b + 19235 * g + 9798 * r + 16384) / 32768.

Definition toy_blur (g : grid Z) (ksize : Z * Z) (sigma : Z) : grid Z := g.

Definition toy_edges (g : grid Z) (threshold1 threshold2 : Z) : grid Z :=
  map (map (λ s, if threshold2 <? s then 255 else 0)) g.

Definition lit_pixels (g : grid Z) : list point :=
  concat (imap (λ y row,
    concat (imap (λ x s,
      if s =? 0 then [] else [(Z.of_nat x, Z.of_nat y)]) row)) g).

Definition toy_contours (g : grid Z) : list contour :=
  match lit_pixels g with
  | [] => []
  | pts =>
      let '(x, y, w, h) := boundingRect pts in
      [[(x, y); (x, y + h - 1); (x + w - 1, y + h - 1); (x + w - 1, y)]]
  end.

Definition on_outline (pt1 pt2 : point) (x y : Z) : bool :=
  on_segment pt1 pt2 x y &&
  ((x =? pt1.1) || (x =? pt2.1) || (y =? pt1.2) || (y =? pt2.2)).

Definition toy_rectangle (pt1 pt2 : point) (color : scalar) (thickness : Z)
  : ndarray → ndarray :=
  paint_value (on_outline pt1 pt2) color.

Definition toy : vision.
Proof.
  refine {| luma := toy_luma; GaussianBlur := toy_blur; Canny := toy_edges;
            findContours := toy_contours; rectangle_value := toy_rectangle |}.
  intros pt1 pt2 color thickness [g|c] Hc; [done|].
  unfold toy_rectangle, paint_value, nchannels, pixel_channels, paint in *.
  destruct c as [|[|p row] rows]; [done..|].
  unfold first_row in *. simpl in *.
  destruct (on_outline pt1 pt2 _ _); [|done].
  unfold to_pixel. rewrite length_take, length_app. simpl. lia.
Defined.

(** Arrays and contours the examples run on. *)
Definition px_a : list Z := [10; 20; 30].
Definition px_b : list Z := [40; 50; 60].
Definition img_2x3 : ndarray :=
  Color [[px_a; px_b; px_a]; [px_b; px_a; px_b]].
Definition img_gray_1x1 : ndarray := Gray [[7]].

(** A bright 2 by 2 block in the corner of a dark 3 by 3 array. *)
Definition px_lit : list Z := [200; 200; 200].
Definition px_dark : list Z := [0; 0; 0].
Definition grid_block : grid (list Z) :=
  [[px_lit; px_lit; px_dark];
   [px_lit; px_lit; px_dark];
   [px_dark; px_dark; px_dark]].
Definition img_block : ndarray := Color grid_block.

(** A closed contour around a 25 by 20 rectangle: area 500. *)
Definition box_25_by_20 : contour := [(0, 0); (0, 20); (25, 20); (25, 0)].

(** ** Notions used by the further properties *)

(** [k] quarter turns clockwise. *)
Definition quarter_turns (k : nat) (v : ndarray) : ndarray :=
  Nat.iter k (on_grid (@rot90_cw)) v.

(** ** Channel order: [COLOR_RGB2BGR] and [COLOR_BGR2RGB]

    Both codes name the same conversion: the first and the third channel
    change places, and a fourth channel is dropped. *)

Definition swap_rb (px : list Z) : list Z :=
  match px with
  | c0 :: c1 :: c2 :: _ => [c2; c1; c0]
  | _ => px
  end.

Definition swap_value (v : ndarray) : ndarray :=
  match v with
  | Gray g => Gray g
  | Color c => Color (map (map swap_rb) c)
  end.

Definition cv2_cvtColor_BGR2RGB (src : ref) : M ref :=
  v ← load src;
  match v with
  | Gray _ => raise cv2_error
  | Color c =>
      if (pixel_channels c =? 3)%nat || (pixel_channels c =? 4)%nat
      then alloc (swap_value v)
      else raise cv2_error
  end.

Definition cv2_cvtColor_RGB2BGR : ref → M ref := cv2_cvtColor_BGR2RGB.

(** ** The shell: what Streamlit is asked to render *)

Inductive widget : Type :=
  | Title (body : string)
  | Markdown (body : string)
  | Subheader (body : string)
  | Info (body : string)
  | FileUploader (label : string) (types : list string)
  | Tabs (labels : list string)
  | Radio (label : string) (options : list Z) (index : Z) (horizontal : bool)
  | Columns (n : Z)
  | Picture (image : ndarray) (caption : option string)
            (use_column_width clamp : bool).

(** A rendered element and the container it went to: [[]] is the page,
    [[i]] the [i]-th tab, [[i; j]] the [j]-th column inside it. *)
Abbreviation element := (list nat * widget)%type (only parsing).

(** A shell computation knows the container it renders into and runs from
    a page and a store to an outcome, a page and a store. *)
Definition UI (A : Type) : Type :=
  list nat → list element * list ndarray →
  result A * (list element * list ndarray).

#[global] Instance UI_ret : MRet UI := λ A a _ w, (Ok a, w).
#[global] Instance UI_bind : MBind UI := λ A B f m path w,
  match m path w with
  | (Ok a, w') => f a path w'
  | (Raise e, w') => (Raise e, w')
  end.

(** A call into the module. *)
Definition core {A} (m : M A) : UI A := λ _ w,
  ((m w.2).1, (w.1, (m w.2).2)).

Definition emit (wd : widget) : UI unit := λ path w,
  (Ok (), (w.1 ++ [(path, wd)], w.2)).

(** [with container: body] *)
Definition within {A} (i : nat) (body : UI A) : UI A := λ path,
  body (path ++ [i]).

Fixpoint ui_for {A} (xs : list A) (body : A → UI unit) : UI unit :=
  match xs with
  | [] => mret ()
  | x :: xs' => body x;; ui_for xs' body
  end.

Definition st_title (body : string) : UI unit := emit (Title body).
Definition st_write (body : string) : UI unit := emit (Markdown body).
Definition st_subheader (body : string) : UI unit := emit (Subheader body).
Definition st_info (body : string) : UI unit := emit (Info body).

(** [st.image] renders the samples the array has at the time of the call. *)
Definition st_image (image : ref) (caption : option string)
    (use_column_width clamp : bool) : UI unit :=
  v ← core (load image); emit (Picture v caption use_column_width clamp).

(** The input widgets render themselves and return what the user did. *)
Definition st_file_uploader {file} (label : string) (types : list string)
    (uploaded : option file) : UI (option file) :=
  emit (FileUploader label types);; mret uploaded.

Definition st_radio (label : string) (options : list Z) (index : Z)
    (horizontal : bool) (choice : Z) : UI Z :=
  emit (Radio label options index horizontal);; mret choice.

Definition st_tabs (labels : list string) : UI unit := emit (Tabs labels).
Definition st_columns (n : Z) : UI unit := emit (Columns n).

(** [str] of the values that reach an f-string. *)
Definition z_str (n : Z) : string := NilZero.string_of_int (Z.to_int n).

Definition py_str (v : pyval) : string :=
  match v with
  | PyInt n => z_str n
  | PyStr s => s
  | PyTuple [] => "()"
  | PyTuple [n] => "(" ++ z_str n ++ ",)"
  | PyTuple t => "(" ++ String.concat ", " (map z_str t) ++ ")"
  end%string.

Section Shell.
Context (cv : vision).
(** An uploaded file, and [np.array(Image.open(file).convert("RGB"))]; a
    file PIL cannot open is outside the modelled fragment. *)
Context {file : Type} (pil_open_rgb : file → option ndarray).

Definition load_image_bgr (uploaded_file : file) : M ref :=
  img_rgb ← match pil_open_rgb uploaded_file with
            | Some image => alloc image
            | None => raise NotModelled
            end;
  img_bgr ← cv2_cvtColor_RGB2BGR img_rgb;
  mret img_bgr.

Definition show_image_bgr (img_bgr : ref) (caption : option string) : UI unit :=
  img_rgb ← core (cv2_cvtColor_BGR2RGB img_bgr);
  st_image img_rgb caption true false.

(** [for k, v in props.items(): st.write(f"**{k}:** {v}")] *)
Definition write_properties (props : pydict) : UI unit :=
  ui_for props (λ '(k, v), st_write ("**" ++ k ++ ":** " ++ py_str v)).

(** The eight [with tabs[i]:] blocks of the script. *)
Definition tab_show (img_bgr : ref) : UI unit :=
  st_subheader "Original Image";;
  show_image_bgr img_bgr (Some "Original Image"%string).

Definition tab_grayscale (img_bgr : ref) : UI unit :=
  st_subheader "Black & White (Grayscale)";;
  gray ← core (to_grayscale cv img_bgr);
  st_image gray (Some "Grayscale Image"%string) true true.

Definition tab_properties (img_bgr : ref) : UI unit :=
  st_subheader "Image Properties";;
  props ← core (get_properties img_bgr);
  write_properties props.

Definition tab_rotate (img_bgr : ref) (choice : Z) : UI unit :=
  st_subheader "Rotate the Image";;
  angle ← st_radio "Select rotation angle:" [90; 180; 270] 0 true choice;
  rotated ← core (rotate_image img_bgr angle);
  show_image_bgr rotated (Some ("Rotated " ++ z_str angle ++ " degrees")%string).

Definition tab_mirror (img_bgr : ref) : UI unit :=
  st_subheader "Mirror Image (Horizontal Flip)";;
  mirrored ← core (mirror_image img_bgr);
  show_image_bgr mirrored (Some "Mirror Image"%string).

Definition tab_grid (img_bgr : ref) : UI unit :=
  st_subheader "Grid on the Image (4x4 = 16 cells, non-prime)";;
  grid_img ← core (make_grid img_bgr 4 4);
  show_image_bgr grid_img (Some "Image with 4x4 Grid"%string).

Definition tab_detect (img_bgr : ref) : UI unit :=
  st_subheader "Object Detection (Edge + Contours)";;
  '(obj_img, count) ← core (detect_objects cv img_bgr default_min_area);
  st_write ("**Approximate number of detected objects:** " ++ z_str count);;
  show_image_bgr obj_img (Some "Detected Objects (Bounding Boxes)"%string).

Definition tab_all (img_bgr : ref) : UI unit :=
  st_subheader "All Operations Combined";;
  st_write "### Original";;
  show_image_bgr img_bgr None;;
  st_write "### Black & White";;
  gray ← core (to_grayscale cv img_bgr);
  st_image gray None true true;;
  st_write "### Properties";;
  props ← core (get_properties img_bgr);
  write_properties props;;
  st_write "### Rotated 90°, 180°, 270°";;
  st_columns 3;;
  within 0 (r90 ← core (rotate_image img_bgr 90);
            show_image_bgr r90 (Some "90°"%string));;
  within 1 (r180 ← core (rotate_image img_bgr 180);
            show_image_bgr r180 (Some "180°"%string));;
  within 2 (r270 ← core (rotate_image img_bgr 270);
            show_image_bgr r270 (Some "270°"%string));;
  st_write "### Mirror Image";;
  mirrored ← core (mirror_image img_bgr);
  show_image_bgr mirrored (Some "Mirror Image"%string);;
  st_write "### Grid (4x4)";;
  grid_img ← core (make_grid img_bgr 4 4);
  show_image_bgr grid_img (Some "4x4 Grid"%string);;
  st_write "### Object Detection";;
  '(obj_img_all, count_all) ← core (detect_objects cv img_bgr default_min_area);
  st_write ("**Objects detected:** " ++ z_str count_all);;
  show_image_bgr obj_img_all (Some "Detected Objects"%string).

Definition tab_labels : list string :=
  [ "1) Show Image"; "2) Color to Black & White"; "3) Properties";
    "4) Rotate Image"; "5) Mirror Image"; "6) Make Small Grid";
    "7) Find Objects (No DL)"; "8) Select All Options" ]%string.

(** The script, run once: [uploaded] is what the uploader holds and
    [choice] the angle selected in the radio. *)
Definition app (uploaded : option file) (choice : Z) : UI unit :=
  st_title "Basic Image Processing App 🧠📷";;
  st_write "Practical 1 – Deep Learning (Basic Image Processing)";;
  uploaded_file ← st_file_uploader "Upload a JPG image"
                    ["jpg"; "jpeg"; "png"]%string uploaded;
  match uploaded_file with
  | Some f =>
      img_bgr ← core (load_image_bgr f);
      st_tabs tab_labels;;
      within 0 (tab_show img_bgr);;
      within 1 (tab_grayscale img_bgr);;
      within 2 (tab_properties img_bgr);;
      within 3 (tab_rotate img_bgr choice);;
      within 4 (tab_mirror img_bgr);;
      within 5 (tab_grid img_bgr);;
      within 6 (tab_detect img_bgr);;
      within 7 (tab_all img_bgr)
  | None =>
      st_info "👆 Please upload a JPG / JPEG / PNG image to begin."
  end.
End Shell.

(** The pictures of a page, each with its container, and those of the
    containers selected by [sel]. *)
Definition tagged_pictures (scr : list element) : list (list nat * ndarray) :=
  flat_map (λ e, match e.2 with
                 | Picture image _ _ _ => [(e.1, image)]
                 | _ => []
                 end) scr.

Definition pictures_in (sel : list nat → bool) (scr : list element)
  : list ndarray :=
  map snd (List.filter (λ t, sel t.1) (tagged_pictures scr)).

(** A shell computation that reads the array [v] at [x] runs to its end
    from any container, page and store, only extends the page and the
    store, and renders the pictures [rel], listed with their containers
    relative to the one it runs in. *)
Definition shows (tab : UI unit) (x : ref) (v : ndarray)
    (rel : list (list nat * ndarray)) : Prop :=
  ∀ path scr h, h !! x = Some v →
    ∃ evs created,
      tab path (scr, h) = (Ok (), (scr ++ evs, h ++ created)) ∧
      tagged_pictures evs = map (λ t, (path ++ t.1, t.2)) rel.

(** A scene for the examples: the uploaded file is its own RGB array. *)
Definition img_rgb_2x3 : ndarray :=
  Color [[[30; 20; 10]; [60; 50; 40]; [30; 20; 10]];
         [[60; 50; 40]; [30; 20; 10]; [60; 50; 40]]].

(** What [rotate_image] leaves in its result, by angle. *)
Definition rotated_value (angle : Z) (v : ndarray) : ndarray :=
  if angle =? 90 then rotate_value ROTATE_90_CLOCKWISE v
  else if angle =? 180 then rotate_value ROTATE_180 v
  else if angle =? 270 then rotate_value ROTATE_90_COUNTERCLOCKWISE v
  else v.

(** What [make_grid] paints on a copy of [v]. *)
Definition grid_value (rows cols : Z) (v : ndarray) : ndarray :=
  paint_value
    (λ px py,
       on_any (horizontal_segments (Z.of_nat (height v))
                 (Z.of_nat (width v)) rows) px py ||
       on_any (vertical_segments (Z.of_nat (height v))
                 (Z.of_nat (width v)) cols) px py)
    [0; 255; 0] v.

(** The annotated image and the edge map's gray image of the detector. *)
Definition annotated_value (cv : vision) (min_area : Q) (v : ndarray)
  : ndarray :=
  match v with
  | Gray _ => v
  | Color c =>
      fold_left (draw_box cv)
        (List.filter (exceeds min_area) (edge_contours cv c)) v
  end.

Definition gray_value (cv : vision) (v : ndarray) : ndarray :=
  match v with
  | Gray _ => v
  | Color c => Gray (bgr_to_gray (luma cv) c)
  end.

(** Containers: a tab of the first seven, and the eighth. *)
Definition in_single_tab (path : list nat) : bool :=
  match path with
  | i :: _ => (i <? 7)%nat
  | [] => false
  end.

Definition in_combined_tab (path : list nat) : bool :=
  match path with
  | i :: _ => (i =? 7)%nat
  | [] => false
  end.

(** The [i]-th tab itself. *)
Definition in_tab (i : nat) (path : list nat) : bool :=
  match path with
  | [j] => (j =? i)%nat
  | _ => false
  end.

(** * Properties *)

(** ** Rectangular grids *)

Section GridFacts.
Context {A : Type}.
Implicit Types (g : grid A) (r : list A).

Lemma rev_replicate_nil (n : nat) :
  rev (replicate n (@nil A)) = replicate n [].
Proof.
  induction n as [|n IH]; [done|].
  simpl. rewrite IH. clear IH.
  induction n as [|n IH]; [done|]. simpl. by rewrite IH.
Qed.

Lemma transpose_w_0 g : transpose_w 0 g = [].
Proof.
  induction g as [|r rs IH]; [done|].
  simpl. rewrite IH. by destruct r.
Qed.

Lemma length_transpose_w W g :
  Forall (λ row, length row = W) g → length (transpose_w W g) = W.
Proof.
  induction 1 as [|r rs Hr _ IH]; simpl.
  - by rewrite length_replicate.
  - rewrite length_zip_with. lia.
Qed.

Lemma Forall_length_zip_cons n r (T : grid A) :
  Forall (λ t, length t = n) T →
  Forall (λ c, length c = S n) (zip_with cons r T).
Proof.
  intros HT. revert r.
  induction HT as [|t T Ht _ IH]; intros [|a r]; simpl; try constructor.
  - simpl. by rewrite Ht.
  - apply IH.
Qed.

Lemma transpose_w_columns W g :
  Forall (λ col, length col = length g) (transpose_w W g).
Proof.
  induction g as [|r rs IH]; simpl.
  - by apply Forall_replicate.
  - by apply Forall_length_zip_cons.
Qed.

Lemma rect_transpose_w H W g : rect H W g → rect W H (transpose_w W g).
Proof.
  intros [<- Hrows]. split.
  - by apply length_transpose_w.
  - apply transpose_w_columns.
Qed.

Lemma transpose_w_zip_cons n r (T : grid A) :
  length r = length T →
  transpose_w (S n) (zip_with cons r T) = r :: transpose_w n T.
Proof.
  revert T. induction r as [|a r IH]; intros [|t T] Hlen; try done.
  simpl in *. rewrite IH by lia. done.
Qed.

Lemma transpose_w_involutive H W g :
  rect H W g → transpose_w H (transpose_w W g) = g.
Proof.
  intros [<- Hrows].
  induction Hrows as [|r rs Hr Hrs IH]; simpl.
  - apply transpose_w_0.
  - rewrite transpose_w_zip_cons.
    + by rewrite IH.
    + by rewrite length_transpose_w.
Qed.

Lemma rev_zip_with_cons r (T : grid A) :
  length r = length T →
  rev (zip_with cons r T) = zip_with cons (rev r) (rev T).
Proof.
  revert T. induction r as [|a r IH]; intros [|t T] Hlen; try done.
  simpl in *. rewrite IH by lia.
  rewrite zip_with_app by (rewrite !length_rev; lia). done.
Qed.

Lemma transpose_w_map_rev W g :
  Forall (λ row, length row = W) g →
  transpose_w W (map (@rev A) g) = rev (transpose_w W g).
Proof.
  induction 1 as [|r rs Hr Hrs IH]; simpl.
  - by rewrite rev_replicate_nil.
  - rewrite IH, rev_zip_with_cons; [done|].
    by rewrite length_transpose_w.
Qed.

Lemma zip_cons_snoc r0 r (T : grid A) :
  zip_with cons r0 (zip_with snoc T r) = zip_with snoc (zip_with cons r0 T) r.
Proof.
  revert T r. induction r0 as [|a0 r0 IH]; intros [|t T] [|a r]; try done.
  simpl. by rewrite IH.
Qed.

Lemma transpose_w_snoc W g r :
  length r = W →
  transpose_w W (g ++ [r]) = zip_with snoc (transpose_w W g) r.
Proof.
  intros Hr. induction g as [|r0 rs IH]; simpl.
  - subst W. induction r as [|a r IH]; [done|]. simpl. by rewrite IH.
  - by rewrite IH, zip_cons_snoc.
Qed.

Lemma map_rev_zip_cons r (T : grid A) :
  map (@rev A) (zip_with cons r T) = zip_with snoc (map (@rev A) T) r.
Proof.
  revert T. induction r as [|a r IH]; intros [|t T]; try done.
  simpl. by rewrite IH.
Qed.

Lemma transpose_w_rev W g :
  Forall (λ row, length row = W) g →
  transpose_w W (rev g) = map (@rev A) (transpose_w W g).
Proof.
  induction 1 as [|r rs Hr Hrs IH]; simpl.
  - induction W as [|W IH]; [done|]. simpl. by rewrite <- IH.
  - by rewrite transpose_w_snoc, IH, map_rev_zip_cons.
Qed.

Lemma first_row_length H W g :
  rect H W g → (1 ≤ H)%nat → length (first_row g) = W.
Proof.
  intros [<- Hrows] HH. destruct Hrows; simpl in *; [lia|done].
Qed.

Lemma transpose_rect H W g :
  rect H W g → (1 ≤ H)%nat → transpose g = transpose_w W g.
Proof. intros Hg HH. unfold transpose. by rewrite (first_row_length H W). Qed.

Lemma rect_map_rev H W g : rect H W g → rect H W (map (@rev A) g).
Proof.
  intros [<- Hrows]. split; [by rewrite length_map|].
  apply Forall_map. eapply Forall_impl; [done|].
  intros row. simpl. by rewrite length_rev.
Qed.

Lemma rect_rev H W g : rect H W g → rect H W (rev g).
Proof.
  intros [<- Hrows]. split; [by rewrite length_rev|].
  apply Forall_forall. intros row Hin.
  rewrite Forall_forall in Hrows. apply Hrows.
  apply list_elem_of_In. apply list_elem_of_In, in_rev in Hin. done.
Qed.

Lemma rect_rot90_cw H W g :
  rect H W g → (1 ≤ H)%nat → rect W H (rot90_cw g).
Proof.
  intros Hg HH. unfold rot90_cw, flip_horizontal.
  rewrite (transpose_rect H W) by done.
  by apply rect_map_rev, rect_transpose_w.
Qed.

Lemma rect_rot90_ccw H W g :
  rect H W g → (1 ≤ H)%nat → rect W H (rot90_ccw g).
Proof.
  intros Hg HH. unfold rot90_ccw, flip_vertical.
  rewrite (transpose_rect H W) by done.
  by apply rect_rev, rect_transpose_w.
Qed.

Lemma rect_rot180 H W g : rect H W g → rect H W (rot180 g).
Proof. intros Hg. by apply rect_rev, rect_map_rev. Qed.

Lemma flip_horizontal_involutive g :
  flip_horizontal (flip_horizontal g) = g.
Proof.
  unfold flip_horizontal. rewrite map_map.
  induction g as [|r rs IH]; [done|].
  simpl. by rewrite rev_involutive, IH.
Qed.

Lemma rot180_involutive g : rot180 (rot180 g) = g.
Proof.
  unfold rot180, flip_both.
  rewrite map_rev, rev_involutive. apply flip_horizontal_involutive.
Qed.

Lemma rot90_cw_twice H W g :
  rect H W g → (1 ≤ H)%nat → (1 ≤ W)%nat →
  rot90_cw (rot90_cw g) = rot180 g.
Proof.
  intros Hg HH HW.
  pose proof (rect_rot90_cw H W g Hg HH) as Hr.
  unfold rot90_cw at 1. rewrite (transpose_rect W H) by done.
  unfold rot90_cw, flip_horizontal. rewrite (transpose_rect H W) by done.
  rewrite transpose_w_map_rev.
  - rewrite (transpose_w_involutive H W) by done.
    unfold rot180, flip_both. by rewrite map_rev.
  - by apply rect_transpose_w in Hg as [_ ?].
Qed.

Lemma rot90_cw_four_times H W g :
  rect H W g → (1 ≤ H)%nat → (1 ≤ W)%nat →
  rot90_cw (rot90_cw (rot90_cw (rot90_cw g))) = g.
Proof.
  intros Hg HH HW.
  assert (rect H W (rot90_cw (rot90_cw g))) as Hg2.
  { apply (rect_rot90_cw W H); [by apply rect_rot90_cw|done]. }
  rewrite (rot90_cw_twice H W (rot90_cw (rot90_cw g))) by done.
  rewrite (rot90_cw_twice H W g) by done.
  apply rot180_involutive.
Qed.
(** A quarter turn counter-clockwise undoes a quarter turn clockwise, and
    the other way round. *)
Lemma rot90_ccw_cw H W g :
  rect H W g → (1 ≤ H)%nat → (1 ≤ W)%nat → rot90_ccw (rot90_cw g) = g.
Proof.
  intros Hg HH HW.
  pose proof (rect_rot90_cw H W g Hg HH) as Hr.
  unfold rot90_ccw, flip_vertical. rewrite (transpose_rect W H) by done.
  unfold rot90_cw, flip_horizontal. rewrite (transpose_rect H W) by done.
  rewrite transpose_w_map_rev by (by apply rect_transpose_w in Hg as [_ ?]).
  by rewrite rev_involutive, (transpose_w_involutive H W).
Qed.

Lemma rot90_cw_ccw H W g :
  rect H W g → (1 ≤ H)%nat → (1 ≤ W)%nat → rot90_cw (rot90_ccw g) = g.
Proof.
  intros Hg HH HW.
  pose proof (rect_rot90_ccw H W g Hg HH) as Hr.
  unfold rot90_cw, flip_horizontal. rewrite (transpose_rect W H) by done.
  unfold rot90_ccw, flip_vertical. rewrite (transpose_rect H W) by done.
  rewrite transpose_w_rev by (by apply rect_transpose_w in Hg as [_ ?]).
  rewrite (transpose_w_involutive H W) by done.
  apply flip_horizontal_involutive.
Qed.
End GridFacts.

(** ** Running store operations *)

Lemma bind_run {A B} (m : M A) (f : A → M B) (h : heap) :
  (m ≫= f) h =
  match m h with
  | (Ok a, h') => f a h'
  | (Raise e, h') => (Raise e, h')
  end.
Proof. reflexivity. Qed.

Lemma load_run (h : heap) (r : ref) (v : ndarray) :
  h !! r = Some v → load r h = (Ok v, h).
Proof. intros Hr. unfold load. by rewrite Hr. Qed.

Lemma lookup_created (h : heap) (v : ndarray) :
  (h ++ [v]) !! length h = Some v.
Proof. by apply list_lookup_middle. Qed.

Lemma lookup_kept (h : heap) (v w : ndarray) (r : ref) :
  h !! r = Some w → (h ++ [v]) !! r = Some w.
Proof. intros Hr. by apply lookup_app_l_Some. Qed.

Lemma cv2_rotate_run (h : heap) (src : ref) (v : ndarray) (code : rotate_code) :
  h !! src = Some v →
  cv2_rotate src code h = (Ok (length h), h ++ [rotate_value code v]).
Proof.
  intros Hsrc. unfold cv2_rotate. by rewrite bind_run, (load_run h src v).
Qed.

Lemma cv2_flip_run (h : heap) (src : ref) (v : ndarray) (flip_code : Z) :
  h !! src = Some v →
  cv2_flip src flip_code h = (Ok (length h), h ++ [flip_value flip_code v]).
Proof.
  intros Hsrc. unfold cv2_flip. by rewrite bind_run, (load_run h src v).
Qed.

Lemma rotate_image_90 (h : heap) (x : ref) (v : ndarray) :
  h !! x = Some v →
  rotate_image x 90 h = (Ok (length h), h ++ [on_grid (@rot90_cw) v]).
Proof. intros Hx. unfold rotate_image. simpl. by rewrite (cv2_rotate_run h x v). Qed.

Lemma rotate_image_180 (h : heap) (x : ref) (v : ndarray) :
  h !! x = Some v →
  rotate_image x 180 h = (Ok (length h), h ++ [on_grid (@rot180) v]).
Proof. intros Hx. unfold rotate_image. simpl. by rewrite (cv2_rotate_run h x v). Qed.

Lemma rotate_image_270 (h : heap) (x : ref) (v : ndarray) :
  h !! x = Some v →
  rotate_image x 270 h = (Ok (length h), h ++ [on_grid (@rot90_ccw) v]).
Proof. intros Hx. unfold rotate_image. simpl. by rewrite (cv2_rotate_run h x v). Qed.

Lemma mirror_image_run (h : heap) (x : ref) (v : ndarray) :
  h !! x = Some v →
  mirror_image x h = (Ok (length h), h ++ [on_grid (@flip_horizontal) v]).
Proof. intros Hx. unfold mirror_image. by rewrite (cv2_flip_run h x v). Qed.

(** ** Well-formed arrays under the geometric transforms *)

Lemma well_formed_rect (v : ndarray) :
  well_formed v →
  match v with
  | Gray g => rect (height v) (width v) g
  | Color c => rect (height v) (width v) c
  end.
Proof. intros (_ & _ & Hv). destruct v; [done|]. by destruct Hv. Qed.

Lemma rot180_dimensions (v : ndarray) :
  well_formed v →
  height (on_grid (@rot180) v) = height v ∧
  width (on_grid (@rot180) v) = width v.
Proof.
  intros Hv. pose proof (well_formed_rect v Hv) as Hr.
  destruct Hv as (HH & HW & _).
  destruct v as [g|c]; simpl in *;
    (split; [unfold rot180, flip_both; by rewrite length_rev, length_map|];
     eapply first_row_length; [apply rect_rot180, Hr|done]).
Qed.

Lemma mirror_dimensions (v : ndarray) :
  well_formed v →
  height (on_grid (@flip_horizontal) v) = height v ∧
  width (on_grid (@flip_horizontal) v) = width v.
Proof.
  intros Hv. pose proof (well_formed_rect v Hv) as Hr.
  destruct Hv as (HH & HW & _).
  destruct v as [g|c]; simpl in *;
    (split; [unfold flip_horizontal; by rewrite length_map|];
     eapply first_row_length; [apply rect_map_rev, Hr|done]).
Qed.

Lemma rot90_cw_dimensions (v : ndarray) :
  well_formed v →
  height (on_grid (@rot90_cw) v) = width v ∧
  width (on_grid (@rot90_cw) v) = height v.
Proof.
  intros Hv. pose proof (well_formed_rect v Hv) as Hr.
  destruct Hv as (HH & HW & _).
  destruct v as [g|c]; simpl in *.
  - pose proof (rect_rot90_cw _ _ _ Hr HH) as Hr'. split; [by destruct Hr'|].
    by apply (first_row_length (length (first_row g))).
  - pose proof (rect_rot90_cw _ _ _ Hr HH) as Hr'. split; [by destruct Hr'|].
    by apply (first_row_length (length (first_row c))).
Qed.

Lemma rot90_ccw_dimensions (v : ndarray) :
  well_formed v →
  height (on_grid (@rot90_ccw) v) = width v ∧
  width (on_grid (@rot90_ccw) v) = height v.
Proof.
  intros Hv. pose proof (well_formed_rect v Hv) as Hr.
  destruct Hv as (HH & HW & _).
  destruct v as [g|c]; simpl in *.
  - pose proof (rect_rot90_ccw _ _ _ Hr HH) as Hr'. split; [by destruct Hr'|].
    by apply (first_row_length (length (first_row g))).
  - pose proof (rect_rot90_ccw _ _ _ Hr HH) as Hr'. split; [by destruct Hr'|].
    by apply (first_row_length (length (first_row c))).
Qed.

Lemma rot90_cw_four_times_value (v : ndarray) :
  well_formed v →
  on_grid (@rot90_cw) (on_grid (@rot90_cw)
    (on_grid (@rot90_cw) (on_grid (@rot90_cw) v))) = v.
Proof.
  intros Hv. pose proof (well_formed_rect v Hv) as Hr.
  destruct Hv as (HH & HW & _).
  destruct v as [g|c]; simpl in *; f_equal;
    by eapply rot90_cw_four_times.
Qed.

(** ** Geometric transforms *)

(** C4: for every buffer and every angle other than 90, 180 and 270,
    [rotate_image] does not fail, creates nothing and returns the very
    object it was given, so the buffer comes back unchanged. *)
Theorem rotate_image_other_angle (h : heap) (x : ref) (angle : Z) :
  angle ≠ 90 → angle ≠ 180 → angle ≠ 270 →
  rotate_image x angle h = (Ok x, h).
Proof.
  intros H90 H180 H270. unfold rotate_image.
  destruct (Z.eqb_spec angle 90); [done|].
  destruct (Z.eqb_spec angle 180); [done|].
  destruct (Z.eqb_spec angle 270); [done|].
  reflexivity.
Qed.

Lemma rotate_image_other_angle_witness :
  rotate_image 0%nat 45 [img_2x3] = (Ok 0%nat, [img_2x3]).
Proof. apply rotate_image_other_angle; lia. Defined.

(** C6: mirroring twice gives back the samples of the buffer, and so do
    four rotations by 90 degrees and two rotations by 180 degrees. *)
Theorem mirror_and_rotate_inverse_laws (h : heap) (x : ref) (v : ndarray) :
  h !! x = Some v → well_formed v →
  (∃ r h', (m ← mirror_image x; mirror_image m) h = (Ok r, h') ∧
           h' !! r = Some v) ∧
  (∃ r h', (a ← rotate_image x 90; b ← rotate_image a 90;
            c ← rotate_image b 90; rotate_image c 90) h = (Ok r, h') ∧
           h' !! r = Some v) ∧
  (∃ r h', (a ← rotate_image x 180; rotate_image a 180) h = (Ok r, h') ∧
           h' !! r = Some v).
Proof.
  intros Hx Hv. repeat split.
  - eexists _, _. split.
    + rewrite bind_run, (mirror_image_run h x v Hx).
      apply mirror_image_run, lookup_created.
    + rewrite lookup_created. f_equal.
      destruct v; simpl; f_equal; apply flip_horizontal_involutive.
  - eexists _, _. split.
    + rewrite bind_run, (rotate_image_90 h x v Hx).
      rewrite bind_run, (rotate_image_90 _ _ _ (lookup_created _ _)).
      rewrite bind_run, (rotate_image_90 _ _ _ (lookup_created _ _)).
      apply rotate_image_90, lookup_created.
    + rewrite lookup_created. f_equal. by apply rot90_cw_four_times_value.
  - eexists _, _. split.
    + rewrite bind_run, (rotate_image_180 h x v Hx).
      apply rotate_image_180, lookup_created.
    + rewrite lookup_created. f_equal.
      destruct v; simpl; f_equal; apply rot180_involutive.
Qed.

(** C7: rotating by 90 or by 270 degrees yields a buffer whose height is
    the input's width and whose width is the input's height; rotating by
    180 degrees and mirroring keep height and width. *)
Theorem rotate_and_mirror_dimensions (h : heap) (x : ref) (v : ndarray) :
  h !! x = Some v → well_formed v →
  (∀ angle, angle = 90 ∨ angle = 270 →
     ∃ r h' v', rotate_image x angle h = (Ok r, h') ∧ h' !! r = Some v' ∧
                height v' = width v ∧ width v' = height v) ∧
  (∃ r h' v', rotate_image x 180 h = (Ok r, h') ∧ h' !! r = Some v' ∧
              height v' = height v ∧ width v' = width v) ∧
  (∃ r h' v', mirror_image x h = (Ok r, h') ∧ h' !! r = Some v' ∧
              height v' = height v ∧ width v' = width v).
Proof.
  intros Hx Hv. repeat split.
  - intros angle [-> | ->]; eexists _, _, _.
    + split; [by apply rotate_image_90|].
      split; [apply lookup_created|]. by apply rot90_cw_dimensions.
    + split; [by apply rotate_image_270|].
      split; [apply lookup_created|]. by apply rot90_ccw_dimensions.
  - eexists _, _, _. split; [by apply rotate_image_180|].
    split; [apply lookup_created|]. by apply rot180_dimensions.
  - eexists _, _, _. split; [by apply mirror_image_run|].
    split; [apply lookup_created|]. by apply mirror_dimensions.
Qed.

Ltac solve_well_formed :=
  unfold well_formed, rect; simpl; repeat split; try lia; repeat constructor.

Lemma well_formed_img_2x3 : well_formed img_2x3.
Proof. solve_well_formed. Qed.

Lemma well_formed_img_gray_1x1 : well_formed img_gray_1x1.
Proof. solve_well_formed. Qed.

Lemma mirror_and_rotate_inverse_laws_witness :
  (∃ r h', (m ← mirror_image 0%nat; mirror_image m) [img_2x3] = (Ok r, h') ∧
           h' !! r = Some img_2x3) ∧
  (∃ r h', (a ← rotate_image 0%nat 90; b ← rotate_image a 90;
            c ← rotate_image b 90; rotate_image c 90) [img_2x3] = (Ok r, h') ∧
           h' !! r = Some img_2x3) ∧
  (∃ r h', (a ← rotate_image 0%nat 180; rotate_image a 180) [img_2x3]
           = (Ok r, h') ∧
           h' !! r = Some img_2x3).
Proof.
  apply (mirror_and_rotate_inverse_laws [img_2x3] 0%nat img_2x3).
  - reflexivity.
  - apply well_formed_img_2x3.
Defined.

Lemma rotate_and_mirror_dimensions_witness :
  ∃ r h' v', mirror_image 0%nat [img_2x3] = (Ok r, h') ∧ h' !! r = Some v' ∧
             height v' = 2%nat ∧ width v' = 3%nat.
Proof.
  apply (rotate_and_mirror_dimensions [img_2x3] 0%nat img_2x3).
  - reflexivity.
  - apply well_formed_img_2x3.
Defined.

(** ** Properties reporter *)

Lemma length_concat_uniform {A} (n : nat) (l : list (list A)) :
  Forall (λ r, length r = n) l → length (concat l) = (length l * n)%nat.
Proof.
  induction 1 as [|r l Hr _ IH]; [done|].
  simpl. rewrite length_app, IH, Hr. lia.
Qed.

Lemma Forall_concat {A} (P : A → Prop) (l : list (list A)) :
  Forall (Forall P) l → Forall P (concat l).
Proof.
  induction 1 as [|r l Hr _ IH]; simpl; [constructor|].
  by apply Forall_app.
Qed.

Lemma size_well_formed (v : ndarray) :
  well_formed v → size v = (height v * width v * nchannels v)%nat.
Proof.
  intros (_ & _ & Hv). destruct v as [g|c]; simpl in *.
  - destruct Hv as [_ Hrows].
    rewrite (length_concat_uniform _ _ Hrows). lia.
  - destruct Hv as ([_ Hrows] & -> & Hpx).
    rewrite (length_concat_uniform 3 (concat c)) by by apply Forall_concat.
    by rewrite (length_concat_uniform _ _ Hrows).
Qed.

(** C8: for every well-formed buffer, [get_properties] succeeds, leaves
    the store as it found it, and reports the buffer's width, height and
    channel count, and their product as the total. *)
Theorem get_properties_reports (h : heap) (x : ref) (v : ndarray) :
  h !! x = Some v → well_formed v →
  ∃ props,
    get_properties x h = (Ok props, h) ∧
    dict_get props "Width" = Some (PyInt (Z.of_nat (width v))) ∧
    dict_get props "Height" = Some (PyInt (Z.of_nat (height v))) ∧
    dict_get props "Channels" = Some (PyInt (Z.of_nat (nchannels v))) ∧
    dict_get props "Total pixels" =
      Some (PyInt (Z.of_nat (height v) * Z.of_nat (width v) *
                   Z.of_nat (nchannels v))).
Proof.
  intros Hx Hv. eexists. split.
  - unfold get_properties. rewrite bind_run, (load_run h x v Hx). reflexivity.
  - rewrite (size_well_formed v Hv). destruct v; simpl; repeat split;
      f_equal; f_equal; lia.
Qed.

(** The 100 by 200 three-channel scenario of the description. *)
Example get_properties_100_by_200 :
  fst (get_properties 0%nat [Color (replicate 100 (replicate 200 px_a))])
  = Ok [ ("Width"%string, PyInt 200);
         ("Height"%string, PyInt 100);
         ("Channels"%string, PyInt 3);
         ("Shape"%string, PyTuple [100; 200; 3]);
         ("Data type"%string, PyStr "uint8");
         ("Total pixels"%string, PyInt 60000) ].
Proof. vm_compute. reflexivity. Qed.

Lemma get_properties_reports_witness :
  ∃ props,
    get_properties 0%nat [img_2x3] = (Ok props, [img_2x3]) ∧
    dict_get props "Width" = Some (PyInt 3) ∧
    dict_get props "Height" = Some (PyInt 2) ∧
    dict_get props "Channels" = Some (PyInt 3) ∧
    dict_get props "Total pixels" = Some (PyInt 18).
Proof.
  apply (get_properties_reports [img_2x3] 0%nat img_2x3).
  - reflexivity.
  - apply well_formed_img_2x3.
Defined.

(** ** Colour conversion *)

Lemma bgr_to_gray_dimensions (luma : Z → Z → Z → Z) (c : grid (list Z)) :
  length (bgr_to_gray luma c) = length c ∧
  length (first_row (bgr_to_gray luma c)) = length (first_row c).
Proof.
  unfold bgr_to_gray. split; [by rewrite length_map|].
  destruct c as [|row rows]; [done|].
  unfold first_row. simpl. by rewrite length_map.
Qed.

Lemma bgr_to_gray_rect (luma : Z → Z → Z → Z) (H W : nat) (c : grid (list Z)) :
  rect H W c → rect H W (bgr_to_gray luma c).
Proof.
  intros [<- Hrows]. unfold bgr_to_gray. split; [by rewrite length_map|].
  apply Forall_map. eapply Forall_impl; [done|].
  intros row. simpl. by rewrite length_map.
Qed.

Lemma cv2_cvtColor_BGR2GRAY_color (cv : vision) (h : heap) (x : ref)
    (c : grid (list Z)) :
  h !! x = Some (Color c) → pixel_channels c = 3%nat →
  cv2_cvtColor_BGR2GRAY cv x h =
    (Ok (length h), h ++ [Gray (bgr_to_gray (luma cv) c)]).
Proof.
  intros Hx Hc. unfold cv2_cvtColor_BGR2GRAY.
  rewrite bind_run, (load_run h x _ Hx). by rewrite Hc.
Qed.

Lemma cv2_cvtColor_BGR2GRAY_one_channel (cv : vision) (h : heap) (x : ref)
    (v : ndarray) :
  h !! x = Some v → nchannels v = 1%nat →
  cv2_cvtColor_BGR2GRAY cv x h = (Raise cv2_error, h).
Proof.
  intros Hx Hc. unfold cv2_cvtColor_BGR2GRAY.
  rewrite bind_run, (load_run h x _ Hx).
  destruct v as [g|c]; [done|]. simpl in Hc. by rewrite Hc.
Qed.

Lemma to_grayscale_run (cv : vision) (x : ref) (h : heap) :
  to_grayscale cv x h = cv2_cvtColor_BGR2GRAY cv x h.
Proof.
  unfold to_grayscale. rewrite bind_run.
  by destruct (cv2_cvtColor_BGR2GRAY cv x h) as [[a|e] h'].
Qed.

(** C1, as the code has it: a well-formed three-channel buffer is
    converted, without failure, to a new well-formed one-channel buffer of
    the same height and width; a one-channel buffer is not returned but
    rejected with the converter's error, so a second conversion of the
    result fails. *)
Theorem to_grayscale_three_channels_only (cv : vision) (h : heap) (x : ref)
    (v : ndarray) :
  h !! x = Some v → well_formed v →
  (nchannels v = 3%nat →
     ∃ g, to_grayscale cv x h = (Ok (length h), h ++ [Gray g]) ∧
          well_formed (Gray g) ∧
          height (Gray g) = height v ∧ width (Gray g) = width v ∧
          (a ← to_grayscale cv x; to_grayscale cv a) h
            = (Raise cv2_error, h ++ [Gray g])) ∧
  (nchannels v = 1%nat → to_grayscale cv x h = (Raise cv2_error, h)).
Proof.
  intros Hx Hv. split.
  - intros Hc. destruct v as [g|c]; [done|]. simpl in Hc.
    destruct Hv as (HH & HW & Hr & _). simpl in *.
    destruct (bgr_to_gray_dimensions (luma cv) c) as [Hh Hw].
    exists (bgr_to_gray (luma cv) c).
    assert (to_grayscale cv x h
            = (Ok (length h), h ++ [Gray (bgr_to_gray (luma cv) c)])) as Hrun.
    { rewrite to_grayscale_run. by apply cv2_cvtColor_BGR2GRAY_color. }
    split; [done|]. split.
    { unfold well_formed. simpl. rewrite Hh, Hw.
      split; [done|]. split; [done|]. by apply bgr_to_gray_rect. }
    split; [done|]. split; [done|].
    rewrite bind_run, Hrun, to_grayscale_run.
    eapply cv2_cvtColor_BGR2GRAY_one_channel; [apply lookup_created|done].
  - intros Hc. rewrite to_grayscale_run.
    by apply cv2_cvtColor_BGR2GRAY_one_channel with (v := v).
Qed.

Lemma to_grayscale_three_channels_only_witness :
  (∃ g, to_grayscale toy 0%nat [img_2x3] = (Ok 1%nat, [img_2x3; Gray g]) ∧
        well_formed (Gray g) ∧
        height (Gray g) = 2%nat ∧ width (Gray g) = 3%nat ∧
        (a ← to_grayscale toy 0%nat; to_grayscale toy a) [img_2x3]
          = (Raise cv2_error, [img_2x3; Gray g])).
Proof.
  apply (to_grayscale_three_channels_only toy [img_2x3] 0%nat img_2x3).
  - reflexivity.
  - apply well_formed_img_2x3.
  - reflexivity.
Defined.

(** C1 as worded fails: a well-formed one-channel buffer is not returned
    unchanged, the conversion raises; and converting the result of a
    conversion raises as well. *)
Lemma to_grayscale_rejects_gray_input :
  well_formed img_gray_1x1 ∧
  to_grayscale toy 0%nat [img_gray_1x1] = (Raise cv2_error, [img_gray_1x1]) ∧
  fst ((a ← to_grayscale toy 0%nat; to_grayscale toy a) [img_2x3])
    = Raise cv2_error.
Proof.
  split; [apply well_formed_img_gray_1x1|]. split; reflexivity.
Qed.

(** ** Object detector *)

Lemma insert_created (h : list ndarray) (v w : ndarray) :
  <[length h := w]> (h ++ [v]) = h ++ [w].
Proof. by rewrite insert_app_r_alt, Nat.sub_diag by lia. Qed.

Lemma cv2_rectangle_run (cv : vision) (h : heap) (img : ref) (v : ndarray)
    (pt1 pt2 : point) (color : scalar) (thickness : Z) :
  h !! img = Some v → (nchannels v ≤ 4)%nat →
  cv2_rectangle cv img pt1 pt2 color thickness h =
    (Ok (), <[img := rectangle_value cv pt1 pt2 color thickness v]> h).
Proof.
  intros Himg Hc. unfold cv2_rectangle.
  rewrite bind_run, (load_run h img v Himg).
  destruct (Nat.ltb_spec 4 (nchannels v)); [lia|done].
Qed.

Lemma draw_box_nchannels (cv : vision) (v : ndarray) (k : contour) :
  (nchannels v ≤ 4)%nat → nchannels (draw_box cv v k) = nchannels v.
Proof.
  intros Hc. unfold draw_box.
  destruct (boundingRect k) as [[[x y] w_box] h_box].
  by apply rectangle_nchannels.
Qed.

Lemma detect_loop_cons (cv : vision) (obj_img : ref) (min_area : Q)
    (k : contour) (rest : list contour) (count : Z) :
  detect_loop cv obj_img min_area (k :: rest) count =
  if exceeds min_area k then
    let '(x, y, w_box, h_box) := boundingRect k in
    cv2_rectangle cv obj_img (x, y) (x + w_box, y + h_box) [0; 255; 0] 2;;
    detect_loop cv obj_img min_area rest (count + 1)
  else detect_loop cv obj_img min_area rest count.
Proof.
  simpl. unfold exceeds. by destruct (Qlt_le_dec min_area (contourArea k)).
Qed.

Lemma loop_body_run (cv : vision) (obj_img : ref) (k : contour)
    (h : list ndarray) (v : ndarray) (rest : M Z) :
  h !! obj_img = Some v → (nchannels v ≤ 4)%nat →
  (let '(x, y, w_box, h_box) := boundingRect k in
   cv2_rectangle cv obj_img (x, y) (x + w_box, y + h_box) [0; 255; 0] 2;;
   rest) h
  = rest (<[obj_img := draw_box cv v k]> h).
Proof.
  intros Hobj Hc. unfold draw_box.
  destruct (boundingRect k) as [[[x y] w_box] h_box].
  by rewrite bind_run, (cv2_rectangle_run cv h obj_img v).
Qed.

(** The loop counts the contours that pass [area > min_area] and draws
    the box of each, in order, into [obj_img]. *)
Lemma detect_loop_run (cv : vision) (obj_img : ref) (min_area : Q)
    (contours : list contour) :
  ∀ (count : Z) (h : list ndarray) (v : ndarray),
    h !! obj_img = Some v → (nchannels v ≤ 4)%nat →
    detect_loop cv obj_img min_area contours count h =
      (Ok (count + Z.of_nat (length (List.filter (exceeds min_area) contours))),
       <[obj_img := fold_left (draw_box cv)
                      (List.filter (exceeds min_area) contours) v]> h).
Proof.
  induction contours as [|k rest IH]; intros count h v Hobj Hc.
  - cbn [detect_loop List.filter fold_left length].
    rewrite list_insert_id by done.
    unfold mret, M_ret. do 2 f_equal. lia.
  - rewrite detect_loop_cons. cbn [List.filter].
    destruct (exceeds min_area k); [|by apply IH].
    cbn [fold_left length].
    rewrite (loop_body_run cv obj_img k h v) by done.
    rewrite (IH _ _ (draw_box cv v k)).
    + rewrite list_insert_insert_eq. do 2 f_equal. lia.
    + apply list_lookup_insert_eq. by eapply lookup_lt_Some.
    + by rewrite draw_box_nchannels.
Qed.

Lemma detect_objects_run (cv : vision) (h : heap) (x : ref)
    (c : grid (list Z)) (min_area : Q) :
  h !! x = Some (Color c) → pixel_channels c = 3%nat →
  ∃ gray blur edges,
    detect_objects cv x min_area h =
      (Ok ((length h + 3)%nat,
           Z.of_nat (length (List.filter (exceeds min_area)
                               (edge_contours cv c)))),
       h ++ [gray; blur; edges;
             fold_left (draw_box cv)
               (List.filter (exceeds min_area) (edge_contours cv c))
               (Color c)]).
Proof.
  intros Hx Hc. eexists _, _, _. unfold detect_objects.
  rewrite bind_run, (cv2_cvtColor_BGR2GRAY_color cv h x c Hx Hc).
  unfold cv2_GaussianBlur.
  rewrite bind_run, bind_run, (load_run _ _ _ (lookup_created _ _)).
  unfold cv2_Canny, alloc at 1.
  rewrite bind_run, bind_run, (load_run _ _ _ (lookup_created _ _)).
  unfold cv2_findContours, alloc at 1.
  rewrite bind_run, bind_run, (load_run _ _ _ (lookup_created _ _)).
  unfold mret at 1, M_ret at 1, ndarray_copy.
  rewrite bind_run, bind_run, (load_run _ x (Color c)).
  2:{ by do 3 apply lookup_kept. }
  unfold alloc at 1. rewrite bind_run.
  rewrite (detect_loop_run cv _ _ _ _ _ (Color c));
    [|apply lookup_created|simpl; lia].
  unfold mret, M_ret. rewrite !length_app. simpl length.
  f_equal.
  - do 2 f_equal. lia.
  - replace (length h + 1 + 1 + 1)%nat
      with (length (((h ++ [Gray (bgr_to_gray (luma cv) c)]) ++
                     [Gray (GaussianBlur cv (bgr_to_gray (luma cv) c) (5, 5) 0)])
                    ++ [Gray (Canny cv (GaussianBlur cv (bgr_to_gray (luma cv) c) (5, 5) 0) 50 150)]))
      by (rewrite !length_app; simpl; lia).
    rewrite insert_created, <- !app_assoc. reflexivity.
Qed.

Lemma exceeds_spec (min_area : Q) (k : contour) :
  exceeds min_area k = true ↔ (min_area < contourArea k)%Q.
Proof.
  unfold exceeds. destruct (Qlt_le_dec min_area (contourArea k)) as [Hlt|Hle].
  - done.
  - split; [done|]. intros Hlt. by apply Qle_not_lt in Hle.
Qed.

Lemma exceeds_antitone (t1 t2 : Q) (k : contour) :
  (t1 <= t2)%Q → exceeds t2 k = true → exceeds t1 k = true.
Proof.
  rewrite !exceeds_spec. intros Hle Hlt. by eapply Qle_lt_trans.
Qed.

Lemma count_exceeding_antitone (t1 t2 : Q) (contours : list contour) :
  (t1 <= t2)%Q →
  (length (List.filter (exceeds t2) contours)
   ≤ length (List.filter (exceeds t1) contours))%nat.
Proof.
  intros Hle. induction contours as [|k rest IH]; [done|].
  simpl. destruct (exceeds t2 k) eqn:E2.
  - rewrite (exceeds_antitone t1 t2 k Hle E2). simpl. lia.
  - destruct (exceeds t1 k); simpl; lia.
Qed.

(** C2, as the code has it: the detector keeps exactly the contours of the
    edge map whose area is strictly greater than the minimum; a contour
    whose area is at most the minimum is discarded.  The count is the
    number of contours kept, and the annotated copy carries one bounding
    box per contour kept. *)
Theorem detect_objects_area_filter (cv : vision) (h : list ndarray) (x : ref)
    (c : grid (list Z)) (min_area : Q) :
  h !! x = Some (Color c) → well_formed (Color c) →
  let kept := List.filter (exceeds min_area) (edge_contours cv c) in
  (∀ k, In k (edge_contours cv c) →
        (In k kept ↔ (min_area < contourArea k)%Q)) ∧
  ∃ obj_img h',
    detect_objects cv x min_area h = (Ok (obj_img, Z.of_nat (length kept)), h') ∧
    h' !! obj_img = Some (fold_left (draw_box cv) kept (Color c)).
Proof.
  intros Hx (_ & _ & _ & Hc & _) kept. split.
  - intros k Hk. unfold kept. rewrite filter_In, exceeds_spec. tauto.
  - destruct (detect_objects_run cv h x c min_area Hx Hc)
      as (gray & blur & edges & Hrun).
    eexists _, _. split; [exact Hrun|].
    subst kept.
    change (h ++ [gray; blur; edges; ?f]) with (h ++ [gray; blur; edges] ++ [f]).
    rewrite app_assoc. apply list_lookup_middle.
    rewrite length_app. simpl. lia.
Qed.

Lemma well_formed_img_block : well_formed img_block.
Proof. solve_well_formed. Qed.

Lemma detect_objects_area_filter_witness :
  ∃ obj_img h',
    detect_objects toy 0%nat (1 # 2) [img_block] = (Ok (obj_img, 1), h') ∧
    h' !! obj_img =
      Some (fold_left (draw_box toy)
              (List.filter (exceeds (1 # 2)) [[(0, 0); (0, 1); (1, 1); (1, 0)]])
              img_block).
Proof.
  refine (proj2 (detect_objects_area_filter toy [img_block] 0%nat grid_block
                   (1 # 2) _ _)).
  - reflexivity.
  - apply well_formed_img_block.
Defined.

(** C2 as worded fails at the boundary: a contour whose area equals the
    minimum (here the default, 500) is at least the minimum, and the loop
    discards it: nothing is drawn and the count stays 0. *)
Lemma contour_at_the_minimum_is_discarded :
  (contourArea box_25_by_20 == default_min_area)%Q ∧
  at_least default_min_area box_25_by_20 = true ∧
  detect_loop toy 0%nat default_min_area [box_25_by_20] 0 [img_2x3]
    = (Ok 0, [img_2x3]).
Proof. repeat split. Qed.

(** C3: for every three-channel image and thresholds [t1 <= t2], the
    detector returns a count at both thresholds, and the count at [t2] is
    at most the count at [t1]. *)
Theorem detect_objects_count_antitone (cv : vision) (h : list ndarray)
    (x : ref) (c : grid (list Z)) (t1 t2 : Q) :
  h !! x = Some (Color c) → well_formed (Color c) → (t1 <= t2)%Q →
  ∃ obj1 count1 h1 obj2 count2 h2,
    detect_objects cv x t1 h = (Ok (obj1, count1), h1) ∧
    detect_objects cv x t2 h = (Ok (obj2, count2), h2) ∧
    count2 ≤ count1.
Proof.
  intros Hx (_ & _ & _ & Hc & _) Hle.
  destruct (detect_objects_run cv h x c t1 Hx Hc) as (? & ? & ? & Hrun1).
  destruct (detect_objects_run cv h x c t2 Hx Hc) as (? & ? & ? & Hrun2).
  eexists _, _, _, _, _, _. split; [exact Hrun1|]. split; [exact Hrun2|].
  apply inj_le. by apply count_exceeding_antitone.
Qed.

Lemma detect_objects_count_antitone_witness :
  ∃ obj1 count1 h1 obj2 count2 h2,
    detect_objects toy 0%nat (1 # 2) [img_block] = (Ok (obj1, count1), h1) ∧
    detect_objects toy 0%nat default_min_area [img_block]
      = (Ok (obj2, count2), h2) ∧
    count2 ≤ count1.
Proof.
  apply (detect_objects_count_antitone toy [img_block] 0%nat grid_block
           (1 # 2) default_min_area).
  - reflexivity.
  - apply well_formed_img_block.
  - unfold Qle. simpl. lia.
Defined.

(** ** Painting *)

Lemma imap_imap {A B C} (f : nat → B → C) (g : nat → A → B) (l : list A) :
  imap f (imap g l) = imap (λ i a, f i (g i a)) l.
Proof.
  revert f g. induction l as [|a l IH]; intros f g; [done|].
  simpl. f_equal. apply IH.
Qed.

Lemma imap_id {A} (l : list A) : imap (λ _ a, a) l = l.
Proof. induction l as [|a l IH]; [done|]. simpl. f_equal. apply IH. Qed.

Lemma paint_nothing {A} (colour : A) (g : grid A) :
  paint (λ _ _, false) colour g = g.
Proof.
  unfold paint. rewrite <- (imap_id g) at 2.
  apply imap_ext. intros y row _. apply imap_id.
Qed.

Lemma paint_paint {A} (on1 on2 : Z → Z → bool) (colour : A) (g : grid A) :
  paint on2 colour (paint on1 colour g)
  = paint (λ x y, on1 x y || on2 x y) colour g.
Proof.
  unfold paint. rewrite imap_imap. apply imap_ext. intros y row _.
  rewrite imap_imap. apply imap_ext. intros x p _.
  by destruct (on1 _ _), (on2 _ _).
Qed.

Lemma paint_ext {A} (on1 on2 : Z → Z → bool) (colour : A) (g : grid A) :
  (∀ y x p, at_ g y x = Some p →
            on1 (Z.of_nat x) (Z.of_nat y) = on2 (Z.of_nat x) (Z.of_nat y)) →
  paint on1 colour g = paint on2 colour g.
Proof.
  intros Hon. unfold paint. apply imap_ext. intros y row Hrow.
  apply imap_ext. intros x p Hp.
  rewrite (Hon y x p); [done|]. unfold at_. by rewrite Hrow.
Qed.

Lemma at_paint {A} (on : Z → Z → bool) (colour : A) (g : grid A) (y x : nat) :
  at_ (paint on colour g) y x
  = (λ p, if on (Z.of_nat x) (Z.of_nat y) then colour else p) <$> at_ g y x.
Proof.
  unfold at_, paint. rewrite list_lookup_imap.
  destruct (g !! y) as [row|]; [|done]. simpl.
  by rewrite list_lookup_imap.
Qed.

Lemma length_paint {A} (on : Z → Z → bool) (colour : A) (g : grid A) :
  length (paint on colour g) = length g.
Proof. unfold paint. by rewrite length_imap. Qed.

Lemma length_first_row_paint {A} (on : Z → Z → bool) (colour : A)
    (g : grid A) :
  length (first_row (paint on colour g)) = length (first_row g).
Proof.
  destruct g as [|row rows]; [done|].
  unfold paint, first_row. simpl. by rewrite length_imap.
Qed.

Lemma length_to_pixel (C : nat) (color : scalar) :
  (C ≤ 4)%nat → length (to_pixel C color) = C.
Proof.
  intros HC. unfold to_pixel. rewrite length_take, length_app. simpl. lia.
Qed.

Lemma pixel_channels_paint (on : Z → Z → bool) (color : scalar)
    (c : grid (list Z)) :
  (pixel_channels c ≤ 4)%nat →
  pixel_channels (paint on (to_pixel (pixel_channels c) color) c)
  = pixel_channels c.
Proof.
  intros HC. unfold pixel_channels, paint, first_row in *.
  destruct c as [|[|p row] rows]; [done..|]. simpl in *.
  destruct (on _ _); [|done]. by apply length_to_pixel.
Qed.

Lemma shape_paint_value (on : Z → Z → bool) (color : scalar) (v : ndarray) :
  (nchannels v ≤ 4)%nat → shape (paint_value on color v) = shape v.
Proof.
  intros HC. destruct v as [g|c]; simpl in *.
  - by rewrite length_paint, length_first_row_paint.
  - by rewrite length_paint, length_first_row_paint, pixel_channels_paint.
Qed.

Lemma nchannels_paint_value (on : Z → Z → bool) (color : scalar)
    (v : ndarray) :
  (nchannels v ≤ 4)%nat → nchannels (paint_value on color v) = nchannels v.
Proof.
  intros HC. destruct v as [g|c]; [done|]. simpl in *.
  by apply pixel_channels_paint.
Qed.

Lemma paint_value_nothing (color : scalar) (v : ndarray) :
  paint_value (λ _ _, false) color v = v.
Proof. destruct v; simpl; by rewrite paint_nothing. Qed.

Lemma paint_value_twice (on1 on2 : Z → Z → bool) (color : scalar)
    (v : ndarray) :
  (nchannels v ≤ 4)%nat →
  paint_value on2 color (paint_value on1 color v)
  = paint_value (λ x y, on1 x y || on2 x y) color v.
Proof.
  intros HC. destruct v as [g|c]; simpl in *.
  - by rewrite paint_paint.
  - by rewrite pixel_channels_paint, paint_paint.
Qed.

Lemma pixel_paint_value (on : Z → Z → bool) (v : ndarray) (y x : nat) :
  pixel (paint_value on [0; 255; 0] v) y x
  = (λ p, if on (Z.of_nat x) (Z.of_nat y) then highlight v else p)
      <$> pixel v y x.
Proof.
  destruct v as [g|c]; simpl; rewrite at_paint.
  - destruct (at_ g y x); [|done]. simpl. by destruct (on _ _).
  - done.
Qed.

(** ** Grid overlay *)

Lemma for_map {A B} (f : A → B) (xs : list A) (body : B → M unit) :
  for_ (map f xs) body = for_ xs (λ a, body (f a)).
Proof. induction xs as [|a xs IH]; [done|]. simpl. by rewrite IH. Qed.

Lemma cv2_line_run (h : list ndarray) (img : ref) (v : ndarray)
    (pt1 pt2 : point) (color : scalar) :
  h !! img = Some v → (nchannels v ≤ 4)%nat → axis_parallel pt1 pt2 = true →
  cv2_line img pt1 pt2 color 1 h
  = (Ok (), <[img := line_value pt1 pt2 color v]> h).
Proof.
  intros Himg HC Hax. unfold cv2_line.
  rewrite bind_run, (load_run h img v Himg).
  destruct (Nat.ltb_spec 4 (nchannels v)); [lia|]. by rewrite Hax.
Qed.

(** A loop of line drawings into the newest object of the store. *)
Lemma for_lines_run (color : scalar) (segs : list (point * point)) :
  ∀ (h : list ndarray) (v : ndarray),
    (nchannels v ≤ 4)%nat →
    Forall (λ s, axis_parallel s.1 s.2 = true) segs →
    for_ segs (λ s, cv2_line (length h) s.1 s.2 color 1) (h ++ [v])
    = (Ok (), h ++ [paint_value (on_any segs) color v]).
Proof.
  induction segs as [|s segs IH]; intros h v HC Hax.
  - simpl. unfold on_any. simpl. by rewrite paint_value_nothing.
  - inversion Hax as [|? ? Hs Hsegs]; subst.
    cbn [for_]. rewrite bind_run.
    rewrite (cv2_line_run _ _ v) by (done || apply lookup_created).
    rewrite insert_created, IH;
      [|by unfold line_value; rewrite nchannels_paint_value|done].
    unfold line_value. rewrite paint_value_twice by done.
    reflexivity.
Qed.

Lemma horizontal_segments_parallel (h w rows : Z) :
  Forall (λ s, axis_parallel s.1 s.2 = true) (horizontal_segments h w rows).
Proof.
  unfold horizontal_segments. apply Forall_map, Forall_forall. intros r _.
  unfold axis_parallel. simpl. rewrite Z.eqb_refl. apply orb_true_r.
Qed.

Lemma vertical_segments_parallel (h w cols : Z) :
  Forall (λ s, axis_parallel s.1 s.2 = true) (vertical_segments h w cols).
Proof.
  unfold vertical_segments. apply Forall_map, Forall_forall. intros r _.
  unfold axis_parallel. simpl. by rewrite Z.eqb_refl.
Qed.

Lemma shape_hw_run (h : list ndarray) (img : ref) (v : ndarray) :
  h !! img = Some v →
  shape_hw img h = (Ok (Z.of_nat (height v), Z.of_nat (width v)), h).
Proof. intros Himg. unfold shape_hw. by rewrite bind_run, (load_run h img v). Qed.

Lemma floordiv_run (a b : Z) (h : list ndarray) :
  b ≠ 0 → floordiv a b h = (Ok (a / b), h).
Proof. intros Hb. unfold floordiv. by destruct (Z.eqb_spec b 0). Qed.

Lemma ndarray_copy_run (h : list ndarray) (img : ref) (v : ndarray) :
  h !! img = Some v → ndarray_copy img h = (Ok (length h), h ++ [v]).
Proof.
  intros Himg. unfold ndarray_copy. by rewrite bind_run, (load_run h img v).
Qed.

(** The whole of [make_grid] in one step: a copy is created and receives
    the two families of segments. *)
Lemma make_grid_run (h : list ndarray) (x : ref) (v : ndarray) (rows cols : Z) :
  h !! x = Some v → (nchannels v ≤ 4)%nat → rows ≠ 0 → cols ≠ 0 →
  make_grid x rows cols h =
    (Ok (length h),
     h ++ [paint_value
             (λ px py,
                on_any (horizontal_segments (Z.of_nat (height v))
                          (Z.of_nat (width v)) rows) px py ||
                on_any (vertical_segments (Z.of_nat (height v))
                          (Z.of_nat (width v)) cols) px py)
             [0; 255; 0] v]).
Proof.
  intros Hx HC Hrows Hcols. unfold make_grid.
  rewrite bind_run, (shape_hw_run h x v Hx).
  rewrite bind_run, floordiv_run by done.
  rewrite bind_run, floordiv_run by done.
  rewrite bind_run, (ndarray_copy_run h x v Hx).
  rewrite !bind_run.
  pose proof (for_map
    (λ r, ((0, r * (Z.of_nat (height v) / rows)),
           (Z.of_nat (width v), r * (Z.of_nat (height v) / rows))))
    (range 1 rows)
    (λ s : point * point, cv2_line (length h) s.1 s.2 [0; 255; 0] 1)) as Hh.
  pose proof (for_map
    (λ c, ((c * (Z.of_nat (width v) / cols), 0),
           (c * (Z.of_nat (width v) / cols), Z.of_nat (height v))))
    (range 1 cols)
    (λ s : point * point, cv2_line (length h) s.1 s.2 [0; 255; 0] 1)) as Hv.
  simpl in Hh, Hv. rewrite <- Hh, <- Hv.
  fold (horizontal_segments (Z.of_nat (height v)) (Z.of_nat (width v)) rows).
  fold (vertical_segments (Z.of_nat (height v)) (Z.of_nat (width v)) cols).
  rewrite (for_lines_run [0; 255; 0] _ h v HC
             (horizontal_segments_parallel _ _ _)).
  rewrite bind_run, for_lines_run;
    [|by rewrite nchannels_paint_value|apply vertical_segments_parallel].
  rewrite paint_value_twice by done. reflexivity.
Qed.

(** *** The offsets of the lines *)

Lemma in_range (a b r : Z) : In r (range a b) ↔ a ≤ r < b.
Proof.
  unfold range. rewrite in_map_iff. split.
  - intros (i & <- & Hi). apply in_seq in Hi. lia.
  - intros Hr. exists (Z.to_nat (r - a)). split; [lia|].
    apply in_seq. lia.
Qed.

Lemma length_range (a b : Z) : length (range a b) = Z.to_nat (b - a).
Proof. unfold range. by rewrite length_map, length_seq. Qed.

Lemma NoDup_range (a b : Z) : List.NoDup (range a b).
Proof.
  unfold range. apply Finite.Injective_map_NoDup_in; [|apply seq_NoDup].
  intros i j _ _ Hij. lia.
Qed.

Lemma in_line_offsets (size n o : Z) :
  In o (line_offsets size n) ↔ ∃ r, 1 ≤ r < n ∧ o = r * (size / n).
Proof.
  unfold line_offsets. rewrite in_map_iff. split.
  - intros (r & <- & Hr). apply in_range in Hr. by exists r.
  - intros (r & Hr & ->). exists r. split; [done|]. by apply in_range.
Qed.

Lemma length_line_offsets (size n : Z) :
  length (line_offsets size n) = Z.to_nat (n - 1).
Proof. unfold line_offsets. by rewrite length_map, length_range. Qed.

Lemma NoDup_line_offsets (size n : Z) :
  1 ≤ n ≤ size → List.NoDup (line_offsets size n).
Proof.
  intros Hn. unfold line_offsets.
  assert (1 ≤ size / n) as Hcell by (apply Z.div_le_lower_bound; lia).
  apply Finite.Injective_map_NoDup_in; [|apply NoDup_range].
  intros r1 r2 _ _ Hr. nia.
Qed.

Lemma line_offsets_collapse (size n : Z) :
  0 ≤ size < n → line_offsets size n = replicate (Z.to_nat (n - 1)) 0.
Proof.
  intros Hsize. unfold line_offsets. rewrite Z.div_small by done.
  rewrite <- length_range.
  induction (range 1 n) as [|r l IH]; [done|].
  simpl. rewrite IH. f_equal. lia.
Qed.

(** The lines stay off the first and the last row (or column) exactly
    when there is one cell only or fewer cells than pixels. *)
Lemma line_offsets_interior (size n : Z) :
  1 ≤ size → 1 ≤ n →
  (∀ o, In o (line_offsets size n) → 0 < o < size - 1) ↔ n = 1 ∨ n < size.
Proof.
  intros Hsize Hn. split.
  - intros Hin.
    destruct (decide (n = 1)) as [|Hn1]; [by left|]. right.
    destruct (decide (n < size)) as [|Hge]; [done|]. exfalso.
    destruct (decide (n = size)) as [->|Hne].
    + specialize (Hin ((size - 1) * (size / size))).
      rewrite Z.div_same in Hin by lia.
      assert (0 < (size - 1) * 1 < size - 1); [|lia].
      apply Hin, in_line_offsets. exists (size - 1).
      rewrite Z.div_same by lia. lia.
    + specialize (Hin (1 * (size / n))).
      rewrite Z.div_small in Hin by lia.
      assert (0 < 1 * 0 < size - 1); [|lia].
      apply Hin, in_line_offsets. exists 1.
      rewrite Z.div_small by lia. lia.
  - intros [-> | Hlt] o Ho; apply in_line_offsets in Ho as (r & Hr & ->);
      [lia|].
    assert (1 ≤ size / n) as Hcell by (apply Z.div_le_lower_bound; lia).
    pose proof (Z.div_mod size n ltac:(lia)) as Hdiv.
    pose proof (Z.mod_pos_bound size n ltac:(lia)) as Hmod.
    split; [nia|].
    destruct (decide (size / n = 1)) as [Hone|Hmany]; nia.
Qed.

Lemma on_offsets_spec (offsets : list Z) (i : nat) :
  on_offsets offsets i = true ↔ In (Z.of_nat i) offsets.
Proof.
  unfold on_offsets. rewrite existsb_exists. split.
  - intros (o & Ho & Heq). apply Z.eqb_eq in Heq. by subst.
  - intros Hin. exists (Z.of_nat i). split; [done|]. apply Z.eqb_refl.
Qed.

Lemma on_any_horizontal (h w rows x y : Z) :
  0 ≤ x ≤ w →
  on_any (horizontal_segments h w rows) x y
  = existsb (Z.eqb y) (line_offsets h rows).
Proof.
  intros Hx. unfold on_any, horizontal_segments, line_offsets.
  induction (range 1 rows) as [|r l IH]; [done|].
  simpl. rewrite IH. f_equal. unfold on_segment. simpl.
  destruct (Z.eqb_spec y (r * (h / rows)));
    repeat (match goal with
            | |- context [?a <=? ?b] => destruct (Z.leb_spec a b)
            end; simpl; try lia); done.
Qed.

Lemma on_any_vertical (h w cols x y : Z) :
  0 ≤ y ≤ h →
  on_any (vertical_segments h w cols) x y
  = existsb (Z.eqb x) (line_offsets w cols).
Proof.
  intros Hy. unfold on_any, vertical_segments, line_offsets.
  induction (range 1 cols) as [|c l IH]; [done|].
  simpl. rewrite IH. f_equal. unfold on_segment. simpl.
  destruct (Z.eqb_spec x (c * (w / cols)));
    repeat (match goal with
            | |- context [?a <=? ?b] => destruct (Z.leb_spec a b)
            end; simpl; try lia); done.
Qed.

(** *** The pixels of the overlay *)

Lemma well_formed_nchannels (v : ndarray) :
  well_formed v → (nchannels v ≤ 4)%nat.
Proof.
  intros (_ & _ & Hv). destruct v as [g|c]; simpl; [lia|].
  destruct Hv as (_ & -> & _). lia.
Qed.

Lemma at_in_range {A} (H W : nat) (g : grid A) (y x : nat) :
  rect H W g → (y < H)%nat → (x < W)%nat → is_Some (at_ g y x).
Proof.
  intros [<- Hrows] Hy Hx. unfold at_.
  destruct (lookup_lt_is_Some_2 g y Hy) as [row Hrow]. rewrite Hrow. simpl.
  apply lookup_lt_is_Some_2.
  rewrite Forall_forall in Hrows.
  rewrite (Hrows row); [done|]. by eapply list_elem_of_lookup_2.
Qed.

Lemma pixel_in_range (v : ndarray) (y x : nat) :
  well_formed v → (y < height v)%nat → (x < width v)%nat →
  is_Some (pixel v y x).
Proof.
  intros Hv Hy Hx. pose proof (well_formed_rect v Hv) as Hr.
  destruct v as [g|c]; simpl in *.
  - destruct (at_in_range _ _ g y x Hr Hy Hx) as [s Hs]. rewrite Hs. by eexists.
  - by eapply at_in_range.
Qed.

(** [make_grid] succeeds on a well-formed buffer, creates one object of
    the same shape, and a pixel of it is the highlight colour when its row
    or its column is a line offset, and the input's pixel otherwise. *)
Lemma make_grid_pixels (h : list ndarray) (x : ref) (v : ndarray)
    (rows cols : Z) :
  h !! x = Some v → well_formed v → rows ≠ 0 → cols ≠ 0 →
  ∃ v',
    make_grid x rows cols h = (Ok (length h), h ++ [v']) ∧
    shape v' = shape v ∧
    ∀ py px, (py < height v)%nat → (px < width v)%nat →
      ∃ p, pixel v py px = Some p ∧
           pixel v' py px = Some (
             if on_offsets (line_offsets (Z.of_nat (height v)) rows) py
                || on_offsets (line_offsets (Z.of_nat (width v)) cols) px
             then highlight v else p).
Proof.
  intros Hx Hv Hrows Hcols.
  pose proof (well_formed_nchannels v Hv) as HC.
  eexists. split; [by apply make_grid_run|].
  split; [by apply shape_paint_value|].
  intros py px Hpy Hpx.
  destruct (pixel_in_range v py px Hv Hpy Hpx) as [p Hp].
  exists p. split; [done|].
  rewrite pixel_paint_value, Hp. simpl.
  rewrite on_any_horizontal, on_any_vertical by lia.
  reflexivity.
Qed.

(** C5, as the code has it: for a well-formed buffer of height [H] and
    width [W] and [rows], [cols] at least 1, [make_grid] succeeds and
    creates a copy of the same height, width and channel count in which
    the rows [r * (H div rows)], [r] in [1..rows-1], and the columns
    [c * (W div cols)], [c] in [1..cols-1], carry the highlight colour and
    every other pixel is the input's.  There are [rows - 1] and [cols - 1]
    offsets, pairwise distinct when [rows <= H] (resp. [cols <= W]); they
    avoid the first and the last row (resp. column) exactly when
    [rows = 1] or [rows < H] (resp. [cols = 1] or [cols < W]). *)
Theorem make_grid_overlay (h : list ndarray) (x : ref) (v : ndarray)
    (rows cols : Z) :
  h !! x = Some v → well_formed v → 1 ≤ rows → 1 ≤ cols →
  ∃ v',
    make_grid x rows cols h = (Ok (length h), h ++ [v']) ∧
    shape v' = shape v ∧
    (∀ py px, (py < height v)%nat → (px < width v)%nat →
       ∃ p, pixel v py px = Some p ∧
            pixel v' py px = Some (
              if on_offsets (line_offsets (Z.of_nat (height v)) rows) py
                 || on_offsets (line_offsets (Z.of_nat (width v)) cols) px
              then highlight v else p)) ∧
    length (line_offsets (Z.of_nat (height v)) rows) = Z.to_nat (rows - 1) ∧
    length (line_offsets (Z.of_nat (width v)) cols) = Z.to_nat (cols - 1) ∧
    (rows ≤ Z.of_nat (height v) →
       List.NoDup (line_offsets (Z.of_nat (height v)) rows)) ∧
    (cols ≤ Z.of_nat (width v) →
       List.NoDup (line_offsets (Z.of_nat (width v)) cols)) ∧
    ((∀ o, In o (line_offsets (Z.of_nat (height v)) rows) →
           0 < o < Z.of_nat (height v) - 1)
     ↔ rows = 1 ∨ rows < Z.of_nat (height v)) ∧
    ((∀ o, In o (line_offsets (Z.of_nat (width v)) cols) →
           0 < o < Z.of_nat (width v) - 1)
     ↔ cols = 1 ∨ cols < Z.of_nat (width v)).
Proof.
  intros Hx Hv Hrows Hcols.
  destruct (make_grid_pixels h x v rows cols Hx Hv) as (v' & Hrun & Hsh & Hpx);
    [lia..|].
  destruct Hv as (HH & HW & _).
  exists v'. split; [done|]. split; [done|]. split; [done|].
  split; [apply length_line_offsets|]. split; [apply length_line_offsets|].
  split; [intros; apply NoDup_line_offsets; lia|].
  split; [intros; apply NoDup_line_offsets; lia|].
  split; apply line_offsets_interior; lia.
Qed.

Lemma make_grid_overlay_witness :
  ∃ v',
    make_grid 0%nat 2 3 [img_2x3] = (Ok 1%nat, [img_2x3; v']) ∧
    shape v' = [2; 3; 3]%nat.
Proof.
  destruct (make_grid_overlay [img_2x3] 0%nat img_2x3 2 3)
    as (v' & Hrun & Hshape & _).
  - reflexivity.
  - apply well_formed_img_2x3.
  - lia.
  - lia.
  - exists v'. split; [exact Hrun | exact Hshape].
Defined.

(** C5 as worded fails where it says that no line is drawn at the border:
    on a buffer of height 2 the default 4 by 4 grid has its horizontal
    offsets at 0, and the first row of the result is highlighted. *)
Lemma make_grid_line_on_the_border :
  well_formed img_2x3 ∧
  line_offsets 2 default_rows = [0; 0; 0] ∧
  pixel img_2x3 0 1 = Some px_b ∧
  ∃ v', make_grid 0%nat default_rows default_cols [img_2x3]
          = (Ok 1%nat, [img_2x3; v']) ∧
        pixel v' 0 1 = Some [0; 255; 0].
Proof.
  split; [apply well_formed_img_2x3|]. split; [reflexivity|].
  split; [reflexivity|]. eexists. split; reflexivity.
Qed.

Lemma on_offsets_collapsed (n i : nat) :
  (0 < n)%nat → on_offsets (replicate n 0) i = bool_decide (i = 0%nat).
Proof.
  intros Hn. apply eq_true_iff_eq.
  rewrite on_offsets_spec, bool_decide_eq_true. split.
  - intros Hin. apply list_elem_of_In, elem_of_replicate in Hin. lia.
  - intros ->. destruct n; [lia|]. by left.
Qed.

(** C10: when the height is less than [rows], every horizontal offset is
    0: the whole first row is highlighted and no other row is touched by a
    horizontal line; and likewise for the width, [cols] and the first
    column. *)
Theorem make_grid_lines_collapse (h : list ndarray) (x : ref) (v : ndarray)
    (rows cols : Z) :
  h !! x = Some v → well_formed v → 1 ≤ rows → 1 ≤ cols →
  ∃ v',
    make_grid x rows cols h = (Ok (length h), h ++ [v']) ∧
    (Z.of_nat (height v) < rows →
       line_offsets (Z.of_nat (height v)) rows
         = replicate (Z.to_nat (rows - 1)) 0 ∧
       (∀ px, (px < width v)%nat → pixel v' 0 px = Some (highlight v)) ∧
       (∀ py px, (0 < py < height v)%nat → (px < width v)%nat →
          ∃ p, pixel v py px = Some p ∧
               pixel v' py px = Some (
                 if on_offsets (line_offsets (Z.of_nat (width v)) cols) px
                 then highlight v else p))) ∧
    (Z.of_nat (width v) < cols →
       line_offsets (Z.of_nat (width v)) cols
         = replicate (Z.to_nat (cols - 1)) 0 ∧
       (∀ py, (py < height v)%nat → pixel v' py 0 = Some (highlight v)) ∧
       (∀ py px, (py < height v)%nat → (0 < px < width v)%nat →
          ∃ p, pixel v py px = Some p ∧
               pixel v' py px = Some (
                 if on_offsets (line_offsets (Z.of_nat (height v)) rows) py
                 then highlight v else p))).
Proof.
  intros Hx Hv Hrows Hcols.
  destruct (make_grid_pixels h x v rows cols Hx Hv) as (v' & Hrun & _ & Hpx);
    [lia..|].
  destruct Hv as (HH & HW & _).
  exists v'. split; [done|]. split.
  - intros Hlt.
    pose proof (line_offsets_collapse (Z.of_nat (height v)) rows ltac:(lia))
      as Hcollapse.
    split; [done|]. split.
    + intros px Hpx'. destruct (Hpx 0%nat px ltac:(lia) Hpx') as (p & _ & ->).
      rewrite Hcollapse, on_offsets_collapsed by lia. done.
    + intros py px Hpy Hpx'.
      destruct (Hpx py px ltac:(lia) Hpx') as (p & Hp & ->).
      exists p. split; [done|].
      rewrite Hcollapse, on_offsets_collapsed by lia.
      by rewrite bool_decide_eq_false_2 by lia.
  - intros Hlt.
    pose proof (line_offsets_collapse (Z.of_nat (width v)) cols ltac:(lia))
      as Hcollapse.
    split; [done|]. split.
    + intros py Hpy. destruct (Hpx py 0%nat Hpy ltac:(lia)) as (p & _ & ->).
      rewrite Hcollapse, on_offsets_collapsed by lia.
      by rewrite orb_true_r.
    + intros py px Hpy Hpx'.
      destruct (Hpx py px Hpy ltac:(lia)) as (p & Hp & ->).
      exists p. split; [done|].
      rewrite Hcollapse, on_offsets_collapsed by lia.
      rewrite bool_decide_eq_false_2 by lia. by rewrite orb_false_r.
Qed.

Lemma make_grid_lines_collapse_witness :
  ∃ v',
    make_grid 0%nat 4 4 [img_2x3] = (Ok 1%nat, [img_2x3; v']) ∧
    line_offsets 2 4 = [0; 0; 0] ∧
    pixel v' 0 1 = Some [0; 255; 0] ∧
    line_offsets 3 4 = [0; 0; 0] ∧
    pixel v' 1 0 = Some [0; 255; 0].
Proof.
  destruct (make_grid_lines_collapse [img_2x3] 0%nat img_2x3 4 4)
    as (v' & Hrun & Hrows & Hcols).
  - reflexivity.
  - apply well_formed_img_2x3.
  - lia.
  - lia.
  - destruct Hrows as (Ho & Hrow0 & _); [simpl; lia|].
    destruct Hcols as (Ho' & Hcol0 & _); [simpl; lia|].
    exists v'. split; [exact Hrun|]. split; [exact Ho|].
    split; [apply Hrow0; simpl; lia|]. split; [exact Ho'|].
    apply Hcol0. simpl. lia.
Defined.

(** ** The store is only extended *)

Section Frames.
Context (n : nat).

Lemma frames_ret {A} (a : A) (Q : A → Prop) : Q a → frames n (mret a) Q.
Proof. intros Ha h Hn. simpl. repeat split; [done|]. by intros ? [= <-]. Qed.

Lemma frames_raise {A} (e : exn) (Q : A → Prop) : frames n (raise e) Q.
Proof. intros h Hn. simpl. repeat split; done. Qed.

Lemma frames_bind {A B} (m : M A) (f : A → M B) (Q : A → Prop)
    (R : B → Prop) :
  frames n m Q → (∀ a, Q a → frames n (f a) R) → frames n (m ≫= f) R.
Proof.
  intros Hm Hf h Hn. rewrite bind_run.
  destruct (Hm h Hn) as (Htake & Hlen & HQ).
  destruct (m h) as [[a|e] h']; simpl in *.
  - destruct (Hf a (HQ a eq_refl) h' Hlen) as (Htake' & Hlen' & HR).
    split; [congruence|done].
  - done.
Qed.

Lemma frames_weaken {A} (m : M A) (Q R : A → Prop) :
  frames n m Q → (∀ a, Q a → R a) → frames n m R.
Proof.
  intros Hm HQR h Hn. destruct (Hm h Hn) as (Htake & Hlen & HQ).
  repeat split; [done..|]. intros a Ha. by apply HQR, HQ.
Qed.

Lemma frames_load (r : ref) : frames n (load r) (λ _, True).
Proof. intros h Hn. unfold load. by destruct (h !! r). Qed.

Lemma frames_alloc (v : ndarray) : frames n (alloc v) (λ r, (n ≤ r)%nat).
Proof.
  intros h Hn. unfold alloc. simpl. split; [|split].
  - by rewrite take_app_le.
  - rewrite length_app. lia.
  - by intros ? [= <-].
Qed.

Lemma frames_store (r : ref) (v : ndarray) :
  (n ≤ r)%nat → frames n (store r v) (λ _, True).
Proof.
  intros Hr h Hn. unfold store. simpl. split; [|split].
  - by rewrite take_insert_ge.
  - by rewrite length_insert.
  - done.
Qed.

Lemma frames_for {A} (xs : list A) (body : A → M unit) :
  (∀ a, frames n (body a) (λ _, True)) →
  frames n (for_ xs body) (λ _, True).
Proof.
  intros Hbody. induction xs as [|a xs IH]; simpl.
  - by apply frames_ret.
  - eapply frames_bind; [apply Hbody|]. intros _ _. apply IH.
Qed.

Lemma frames_floordiv (a b : Z) : frames n (floordiv a b) (λ _, True).
Proof.
  unfold floordiv. destruct (b =? 0); [apply frames_raise|by apply frames_ret].
Qed.

Lemma frames_shape_hw (img : ref) : frames n (shape_hw img) (λ _, True).
Proof.
  unfold shape_hw. eapply frames_bind; [apply frames_load|].
  intros v _. by apply frames_ret.
Qed.

Lemma frames_ndarray_copy (img : ref) :
  frames n (ndarray_copy img) (λ r, (n ≤ r)%nat).
Proof.
  unfold ndarray_copy. eapply frames_bind; [apply frames_load|].
  intros v _. apply frames_alloc.
Qed.

Lemma frames_cv2_rotate (src : ref) (code : rotate_code) :
  frames n (cv2_rotate src code) (λ _, True).
Proof.
  unfold cv2_rotate. eapply frames_bind; [apply frames_load|].
  intros v _. eapply frames_weaken; [apply frames_alloc|done].
Qed.

Lemma frames_cv2_flip (src : ref) (flip_code : Z) :
  frames n (cv2_flip src flip_code) (λ _, True).
Proof.
  unfold cv2_flip. eapply frames_bind; [apply frames_load|].
  intros v _. eapply frames_weaken; [apply frames_alloc|done].
Qed.

Lemma frames_cv2_line (img : ref) (pt1 pt2 : point) (color : scalar)
    (thickness : Z) :
  (n ≤ img)%nat → frames n (cv2_line img pt1 pt2 color thickness) (λ _, True).
Proof.
  intros Himg. unfold cv2_line. eapply frames_bind; [apply frames_load|].
  intros v _. destruct (4 <? nchannels v)%nat; [apply frames_raise|].
  destruct (axis_parallel pt1 pt2 && (thickness =? 1));
    [by apply frames_store|apply frames_raise].
Qed.

Lemma frames_cv2_cvtColor_BGR2GRAY (cv : vision) (src : ref) :
  frames n (cv2_cvtColor_BGR2GRAY cv src) (λ _, True).
Proof.
  unfold cv2_cvtColor_BGR2GRAY. eapply frames_bind; [apply frames_load|].
  intros [g|c] _; [apply frames_raise|].
  destruct (_ || _); [|apply frames_raise].
  eapply frames_weaken; [apply frames_alloc|done].
Qed.

Lemma frames_cv2_GaussianBlur (cv : vision) (src : ref) (ksize : Z * Z)
    (sigma : Z) :
  frames n (cv2_GaussianBlur cv src ksize sigma) (λ _, True).
Proof.
  unfold cv2_GaussianBlur. eapply frames_bind; [apply frames_load|].
  intros [g|c] _; [|apply frames_raise].
  eapply frames_weaken; [apply frames_alloc|done].
Qed.

Lemma frames_cv2_Canny (cv : vision) (image : ref) (t1 t2 : Z) :
  frames n (cv2_Canny cv image t1 t2) (λ _, True).
Proof.
  unfold cv2_Canny. eapply frames_bind; [apply frames_load|].
  intros [g|c] _; [|apply frames_raise].
  eapply frames_weaken; [apply frames_alloc|done].
Qed.

Lemma frames_cv2_findContours (cv : vision) (image : ref) :
  frames n (cv2_findContours cv image) (λ _, True).
Proof.
  unfold cv2_findContours. eapply frames_bind; [apply frames_load|].
  intros [g|c] _; [by apply frames_ret|apply frames_raise].
Qed.

Lemma frames_cv2_rectangle (cv : vision) (img : ref) (pt1 pt2 : point)
    (color : scalar) (thickness : Z) :
  (n ≤ img)%nat →
  frames n (cv2_rectangle cv img pt1 pt2 color thickness) (λ _, True).
Proof.
  intros Himg. unfold cv2_rectangle. eapply frames_bind; [apply frames_load|].
  intros v _. destruct (4 <? nchannels v)%nat;
    [apply frames_raise|by apply frames_store].
Qed.

Lemma frames_detect_loop (cv : vision) (obj_img : ref) (min_area : Q)
    (contours : list contour) (count : Z) :
  (n ≤ obj_img)%nat →
  frames n (detect_loop cv obj_img min_area contours count) (λ _, True).
Proof.
  intros Hobj. revert count.
  induction contours as [|k rest IH]; intros count; simpl.
  - by apply frames_ret.
  - destruct (Qlt_le_dec min_area (contourArea k)); [|apply IH].
    destruct (boundingRect k) as [[[x y] w_box] h_box].
    eapply frames_bind; [by apply frames_cv2_rectangle|].
    intros _ _. apply IH.
Qed.

Lemma frames_to_grayscale (cv : vision) (img_bgr : ref) :
  frames n (to_grayscale cv img_bgr) (λ _, True).
Proof.
  unfold to_grayscale.
  eapply frames_bind; [apply frames_cv2_cvtColor_BGR2GRAY|].
  intros gray _. by apply frames_ret.
Qed.

Lemma frames_get_properties (img_bgr : ref) :
  frames n (get_properties img_bgr) (λ _, True).
Proof.
  unfold get_properties. eapply frames_bind; [apply frames_load|].
  intros v _. by apply frames_ret.
Qed.

Lemma frames_rotate_image (img_bgr : ref) (angle : Z) :
  frames n (rotate_image img_bgr angle) (λ _, True).
Proof.
  unfold rotate_image.
  repeat (match goal with
          | |- context [if ?b then _ else _] => destruct b
          end; [apply frames_cv2_rotate|]).
  by apply frames_ret.
Qed.

Lemma frames_mirror_image (img_bgr : ref) :
  frames n (mirror_image img_bgr) (λ _, True).
Proof. apply frames_cv2_flip. Qed.

Lemma frames_make_grid (img_bgr : ref) (rows cols : Z) :
  frames n (make_grid img_bgr rows cols) (λ _, True).
Proof.
  unfold make_grid.
  eapply frames_bind; [apply frames_shape_hw|]. intros [h w] _.
  eapply frames_bind; [apply frames_floordiv|]. intros cell_h _.
  eapply frames_bind; [apply frames_floordiv|]. intros cell_w _.
  eapply frames_bind; [apply frames_ndarray_copy|]. intros grid_img Hfresh.
  eapply frames_bind.
  { apply frames_for. intros r. by apply frames_cv2_line. }
  intros _ _. eapply frames_bind.
  { apply frames_for. intros c. by apply frames_cv2_line. }
  intros _ _. by apply frames_ret.
Qed.

Lemma frames_detect_objects (cv : vision) (img_bgr : ref) (min_area : Q) :
  frames n (detect_objects cv img_bgr min_area) (λ _, True).
Proof.
  unfold detect_objects.
  eapply frames_bind; [apply frames_cv2_cvtColor_BGR2GRAY|]. intros gray _.
  eapply frames_bind; [apply frames_cv2_GaussianBlur|]. intros blur _.
  eapply frames_bind; [apply frames_cv2_Canny|]. intros edges _.
  eapply frames_bind; [apply frames_cv2_findContours|]. intros contours _.
  eapply frames_bind; [apply frames_ndarray_copy|]. intros obj_img Hfresh.
  eapply frames_bind; [by apply frames_detect_loop|]. intros count _.
  by apply frames_ret.
Qed.
End Frames.

Lemma frames_preserves_store {A} (m : M A) :
  (∀ n, frames n m (λ _, True)) → preserves_store m.
Proof.
  intros Hm h. destruct (Hm (length h) h) as (Htake & _); [done|].
  exists (drop (length h) (snd (m h))).
  rewrite <- (take_drop (length h) (snd (m h))) at 1.
  by rewrite Htake, firstn_all.
Qed.

(** C9: whatever the arguments and the store, each of the six operations
    leaves every object that existed before the call as it was, the input
    buffer among them; the grid overlay and the detector draw into the
    copy they create. *)
Theorem operations_preserve_their_input (cv : vision) (x : ref)
    (angle rows cols : Z) (min_area : Q) :
  preserves_store (to_grayscale cv x) ∧
  preserves_store (rotate_image x angle) ∧
  preserves_store (mirror_image x) ∧
  preserves_store (make_grid x rows cols) ∧
  preserves_store (detect_objects cv x min_area) ∧
  preserves_store (get_properties x).
Proof.
  repeat split; apply frames_preserves_store; intros n.
  - apply frames_to_grayscale.
  - apply frames_rotate_image.
  - apply frames_mirror_image.
  - apply frames_make_grid.
  - apply frames_detect_objects.
  - apply frames_get_properties.
Qed.

(** * Further properties of the module *)

(** ** Grid overlay: edge cases and composition *)

(** A zero row or column count makes the cell size computation divide by
    zero: the call raises before the copy is made, so nothing is created. *)
Theorem make_grid_zero_division (h : list ndarray) (x : ref) (v : ndarray)
    (rows cols : Z) :
  h !! x = Some v → rows = 0 ∨ cols = 0 →
  make_grid x rows cols h = (Raise ZeroDivisionError, h).
Proof.
  intros Hx Hzero. unfold make_grid.
  rewrite bind_run, (shape_hw_run h x v Hx).
  destruct (decide (rows = 0)) as [->|Hrows]; [done|].
  destruct Hzero as [?| ->]; [done|].
  rewrite bind_run, floordiv_run by done. reflexivity.
Qed.

Lemma make_grid_zero_division_witness :
  make_grid 0%nat 4 0 [img_2x3] = (Raise ZeroDivisionError, [img_2x3]).
Proof.
  apply (make_grid_zero_division [img_2x3] 0%nat img_2x3 4 0).
  - reflexivity.
  - right. reflexivity.
Defined.




Lemma paint_value_ext (on1 on2 : Z → Z → bool) (color : scalar) (v : ndarray) :
  (∀ x y, on1 x y = on2 x y) →
  paint_value on1 color v = paint_value on2 color v.
Proof.
  intros Hon. destruct v as [g|c]; simpl; f_equal; apply paint_ext; auto.
Qed.

Lemma height_width_paint_value (on : Z → Z → bool) (color : scalar)
    (v : ndarray) :
  height (paint_value on color v) = height v ∧
  width (paint_value on color v) = width v.
Proof.
  destruct v as [g|c]; simpl;
    by rewrite length_paint, length_first_row_paint.
Qed.

(** Overlaying the grid on an overlaid image changes nothing: the second
    call draws the same lines over themselves. *)
Theorem make_grid_idempotent (h : list ndarray) (x : ref) (v : ndarray)
    (rows cols : Z) :
  h !! x = Some v → (nchannels v ≤ 4)%nat → rows ≠ 0 → cols ≠ 0 →
  ∃ v',
    make_grid x rows cols h = (Ok (length h), h ++ [v']) ∧
    (g ← make_grid x rows cols; make_grid g rows cols) h
      = (Ok (S (length h)), h ++ [v'; v']).
Proof.
  intros Hx HC Hrows Hcols. eexists. split; [by apply make_grid_run|].
  rewrite bind_run, (make_grid_run h x v) by done.
  rewrite (make_grid_run _ (length h) _ rows cols (lookup_created _ _))
    by (by rewrite ?nchannels_paint_value).
  rewrite length_app, <- app_assoc. simpl.
  rewrite !(proj1 (height_width_paint_value _ _ _)),
          !(proj2 (height_width_paint_value _ _ _)).
  rewrite paint_value_twice by done.
  rewrite (paint_value_ext (λ x0 y0, _ || _) _ [0; 255; 0] v
             (λ x0 y0, orb_diag _)).
  by replace (length h + 1)%nat with (S (length h)) by lia.
Qed.

Lemma make_grid_idempotent_witness :
  ∃ v',
    make_grid 0%nat 2 3 [img_2x3] = (Ok 1%nat, [img_2x3; v']) ∧
    (g ← make_grid 0%nat 2 3; make_grid g 2 3) [img_2x3]
      = (Ok 2%nat, [img_2x3; v'; v']).
Proof.
  apply (make_grid_idempotent [img_2x3] 0%nat img_2x3 2 3);
    [reflexivity|cbv; lia|lia|lia].
Defined.

(** ** Geometric transforms: where each pixel goes, and how they compose *)

Lemma lookup_map_list {A B} (f : A → B) (l : list A) (i : nat) :
  map f l !! i = f <$> l !! i.
Proof. revert i. induction l as [|a l IH]; intros [|i]; simpl; auto. Qed.

Lemma lookup_rev {A} (l : list A) (i : nat) :
  (i < length l)%nat → rev l !! i = l !! (length l - S i)%nat.
Proof. intros Hi. rewrite rev_alt. by apply reverse_lookup. Qed.

Section GridLookups.
Context {A : Type}.
Implicit Types (g : grid A).

Lemma at_rev g (y x : nat) :
  (y < length g)%nat → at_ (rev g) y x = at_ g (length g - S y) x.
Proof. intros Hy. unfold at_. by rewrite lookup_rev. Qed.

Lemma at_map_rev H W g (y x : nat) :
  rect H W g → (x < W)%nat →
  at_ (map (@rev A) g) y x = at_ g y (W - S x).
Proof.
  intros [_ Hrows] Hx. unfold at_.
  rewrite lookup_map_list.
  destruct (g !! y) as [row|] eqn:Hrow; [|done]. simpl.
  rewrite Forall_forall in Hrows.
  assert (length row = W) as <- by (eapply Hrows, list_elem_of_lookup_2, Hrow).
  by apply lookup_rev.
Qed.

Lemma at_transpose_w W g (j i : nat) :
  Forall (λ row, length row = W) g → (j < W)%nat →
  at_ (transpose_w W g) j i = at_ g i j.
Proof.
  intros Hrows Hj. revert i.
  induction Hrows as [|r rs Hr Hrs IH]; intros i.
  - unfold at_. simpl. rewrite lookup_replicate_2 by done.
    by destruct i.
  - unfold at_ in *. simpl. rewrite lookup_zip_with.
    destruct (lookup_lt_is_Some_2 r j ltac:(lia)) as [a Ha].
    destruct (lookup_lt_is_Some_2 (transpose_w W rs) j) as [t Ht].
    { by rewrite length_transpose_w. }
    rewrite Ha, Ht. simpl. destruct i as [|i]; simpl.
    + by rewrite Ha.
    + specialize (IH i). by rewrite Ht in IH.
Qed.

Lemma at_rot90_cw H W g (i j : nat) :
  rect H W g → (1 ≤ H)%nat → (i < W)%nat → (j < H)%nat →
  at_ (rot90_cw g) i j = at_ g (H - S j) i.
Proof.
  intros Hg HH Hi Hj. unfold rot90_cw, flip_horizontal.
  rewrite (transpose_rect H W) by done.
  rewrite (at_map_rev W H) by (done || by apply rect_transpose_w).
  destruct Hg as [_ Hrows]. by apply at_transpose_w.
Qed.

Lemma at_rot90_ccw H W g (i j : nat) :
  rect H W g → (1 ≤ H)%nat → (i < W)%nat →
  at_ (rot90_ccw g) i j = at_ g j (W - S i).
Proof.
  intros Hg HH Hi. unfold rot90_ccw, flip_vertical.
  rewrite (transpose_rect H W) by done.
  destruct (rect_transpose_w H W g Hg) as [Hlen _].
  rewrite at_rev, Hlen by lia.
  destruct Hg as [_ Hrows]. apply at_transpose_w; [done|lia].
Qed.

Lemma at_rot180 H W g (y x : nat) :
  rect H W g → (y < H)%nat → (x < W)%nat →
  at_ (rot180 g) y x = at_ g (H - S y) (W - S x).
Proof.
  intros Hg Hy Hx. unfold rot180, flip_both.
  destruct (rect_map_rev H W g Hg) as [Hlen _].
  rewrite at_rev, Hlen by lia. by apply (at_map_rev H W).
Qed.
End GridLookups.

(** Where the pixels go: a quarter turn clockwise puts the input's pixel of
    row [H-1-j], column [i] at row [i], column [j]; a quarter turn
    counter-clockwise puts there the pixel of row [j], column [W-1-i]; a half
    turn reverses both coordinates and the mirror reverses the column. *)
Theorem rotate_and_mirror_pixels (h : list ndarray) (x : ref) (v : ndarray) :
  h !! x = Some v → well_formed v →
  ∃ v90 v180 v270 vm,
    rotate_image x 90 h = (Ok (length h), h ++ [v90]) ∧
    rotate_image x 180 h = (Ok (length h), h ++ [v180]) ∧
    rotate_image x 270 h = (Ok (length h), h ++ [v270]) ∧
    mirror_image x h = (Ok (length h), h ++ [vm]) ∧
    (∀ i j, (i < width v)%nat → (j < height v)%nat →
       pixel v90 i j = pixel v (height v - S j) i ∧
       pixel v270 i j = pixel v j (width v - S i)) ∧
    (∀ py px, (py < height v)%nat → (px < width v)%nat →
       pixel v180 py px = pixel v (height v - S py) (width v - S px) ∧
       pixel vm py px = pixel v py (width v - S px)).
Proof.
  intros Hx Hv. eexists _, _, _, _.
  split; [by apply rotate_image_90|]. split; [by apply rotate_image_180|].
  split; [by apply rotate_image_270|]. split; [by apply mirror_image_run|].
  pose proof (well_formed_rect v Hv) as Hr.
  destruct Hv as (HH & HW & _).
  split.
  - intros i j Hi Hj. split.
    + destruct v as [g|c]; simpl in *;
        by rewrite (at_rot90_cw _ _ _ _ _ Hr).
    + destruct v as [g|c]; simpl in *;
        by rewrite (at_rot90_ccw _ _ _ _ _ Hr).
  - intros py px Hpy Hpx. split.
    + destruct v as [g|c]; simpl in *;
        by rewrite (at_rot180 _ _ _ _ _ Hr).
    + destruct v as [g|c]; simpl in *; unfold flip_horizontal;
        by rewrite (at_map_rev _ _ _ _ _ Hr).
Qed.

Lemma rotate_and_mirror_pixels_witness :
  ∃ v90 v180 v270 vm,
    rotate_image 0%nat 90 [img_2x3] = (Ok 1%nat, [img_2x3; v90]) ∧
    rotate_image 0%nat 180 [img_2x3] = (Ok 1%nat, [img_2x3; v180]) ∧
    rotate_image 0%nat 270 [img_2x3] = (Ok 1%nat, [img_2x3; v270]) ∧
    mirror_image 0%nat [img_2x3] = (Ok 1%nat, [img_2x3; vm]) ∧
    (∀ i j, (i < 3)%nat → (j < 2)%nat →
       pixel v90 i j = pixel img_2x3 (2 - S j) i ∧
       pixel v270 i j = pixel img_2x3 j (3 - S i)) ∧
    (∀ py px, (py < 2)%nat → (px < 3)%nat →
       pixel v180 py px = pixel img_2x3 (2 - S py) (3 - S px) ∧
       pixel vm py px = pixel img_2x3 py (3 - S px)).
Proof.
  apply (rotate_and_mirror_pixels [img_2x3] 0%nat img_2x3).
  - reflexivity.
  - apply well_formed_img_2x3.
Defined.

(** ** The buffer invariant under the transforms *)

Lemma Forall_pixels_rev {A} (P : A → Prop) (c : grid A) :
  Forall (Forall P) c → Forall (Forall P) (rev c).
Proof.
  intros Hc. apply Forall_forall. intros row Hin.
  rewrite Forall_forall in Hc. apply Hc.
  apply list_elem_of_In. by apply list_elem_of_In, in_rev in Hin.
Qed.

Lemma Forall_pixels_map_rev {A} (P : A → Prop) (c : grid A) :
  Forall (Forall P) c → Forall (Forall P) (map (@rev A) c).
Proof.
  intros Hc. apply Forall_map. eapply Forall_impl; [done|].
  intros row Hrow. simpl. apply Forall_forall. intros px Hin.
  rewrite Forall_forall in Hrow. apply Hrow.
  apply list_elem_of_In. by apply list_elem_of_In, in_rev in Hin.
Qed.

Lemma Forall_pixels_zip_cons {A} (P : A → Prop) (r : list A) (T : grid A) :
  Forall P r → Forall (Forall P) T → Forall (Forall P) (zip_with cons r T).
Proof.
  intros Hr. revert T. induction Hr as [|a r Ha Hr IH]; intros T HT.
  - constructor.
  - destruct HT as [|t T Ht HT]; simpl; constructor.
    + by constructor.
    + by apply IH.
Qed.

Lemma Forall_pixels_transpose_w {A} (P : A → Prop) (W : nat) (c : grid A) :
  Forall (Forall P) c → Forall (Forall P) (transpose_w W c).
Proof.
  induction 1 as [|r rs Hr Hrs IH]; simpl.
  - apply Forall_replicate. constructor.
  - by apply Forall_pixels_zip_cons.
Qed.

Lemma Forall_pixels_paint {A} (P : A → Prop) (on : Z → Z → bool) (colour : A)
    (c : grid A) :
  P colour → Forall (Forall P) c → Forall (Forall P) (paint on colour c).
Proof.
  intros Hcol Hc. unfold paint.
  apply Forall_lookup. intros y row' Hy.
  rewrite list_lookup_imap in Hy.
  destruct (c !! y) as [row|] eqn:Hrow; [|done]. simpl in Hy.
  injection Hy as <-.
  rewrite Forall_lookup in Hc. specialize (Hc y row Hrow).
  apply Forall_lookup. intros x0 p' Hx0.
  rewrite list_lookup_imap in Hx0.
  destruct (row !! x0) as [p|] eqn:Hp; [|done]. simpl in Hx0.
  injection Hx0 as <-. destruct (on _ _); [done|].
  rewrite Forall_lookup in Hc. by eapply Hc.
Qed.

Lemma rect_paint {A} (H W : nat) (on : Z → Z → bool) (colour : A)
    (g : grid A) :
  rect H W g → rect H W (paint on colour g).
Proof.
  intros [<- Hrows]. split; [apply length_paint|].
  unfold paint. apply Forall_lookup. intros y row' Hy.
  rewrite list_lookup_imap in Hy.
  destruct (g !! y) as [row|] eqn:Hrow; [|done]. simpl in Hy.
  injection Hy as <-. rewrite length_imap.
  rewrite Forall_lookup in Hrows. by eapply Hrows.
Qed.

Lemma pixel_channels_uniform (n : nat) (c : grid (list Z)) :
  (1 ≤ length c)%nat → (1 ≤ length (first_row c))%nat →
  Forall (Forall (λ px, length px = n)) c → pixel_channels c = n.
Proof.
  intros HH HW Hpx. unfold pixel_channels, first_row in *.
  destruct c as [|[|p row] rows]; simpl in *; [lia..|].
  inversion Hpx as [|? ? Hrow _]. by inversion Hrow.
Qed.

Lemma well_formed_gray (H W : nat) (g : grid Z) :
  (1 ≤ H)%nat → (1 ≤ W)%nat → rect H W g → well_formed (Gray g).
Proof.
  intros HH HW Hg.
  pose proof (first_row_length H W g Hg HH) as Hw.
  destruct Hg as [Hh Hrows]. unfold well_formed. simpl.
  rewrite Hh, Hw. by repeat split.
Qed.

Lemma well_formed_color (H W : nat) (c : grid (list Z)) :
  (1 ≤ H)%nat → (1 ≤ W)%nat → rect H W c →
  Forall (Forall (λ px, length px = 3%nat)) c → well_formed (Color c).
Proof.
  intros HH HW Hc Hpx.
  pose proof (first_row_length H W c Hc HH) as Hw.
  destruct Hc as [Hh Hrows]. unfold well_formed. simpl.
  rewrite Hh, Hw. repeat split; [done..| |done].
  apply pixel_channels_uniform; [lia..|done].
Qed.

Lemma well_formed_pixels (c : grid (list Z)) :
  well_formed (Color c) → Forall (Forall (λ px, length px = 3%nat)) c.
Proof. by intros (_ & _ & _ & _ & Hpx). Qed.

Lemma well_formed_rot90_cw (v : ndarray) :
  well_formed v → well_formed (on_grid (@rot90_cw) v).
Proof.
  intros Hv. pose proof (well_formed_rect v Hv) as Hr.
  destruct v as [g|c]; simpl in *.
  - destruct Hv as (HH & HW & _).
    eapply well_formed_gray; [| |by apply rect_rot90_cw]; done.
  - pose proof (well_formed_pixels c Hv) as Hpx.
    destruct Hv as (HH & HW & _).
    eapply well_formed_color; [| |by apply rect_rot90_cw|]; [done..|].
    unfold rot90_cw, flip_horizontal, transpose.
    by apply Forall_pixels_map_rev, Forall_pixels_transpose_w.
Qed.

Lemma well_formed_rot90_ccw (v : ndarray) :
  well_formed v → well_formed (on_grid (@rot90_ccw) v).
Proof.
  intros Hv. pose proof (well_formed_rect v Hv) as Hr.
  destruct v as [g|c]; simpl in *.
  - destruct Hv as (HH & HW & _).
    eapply well_formed_gray; [| |by apply rect_rot90_ccw]; done.
  - pose proof (well_formed_pixels c Hv) as Hpx.
    destruct Hv as (HH & HW & _).
    eapply well_formed_color; [| |by apply rect_rot90_ccw|]; [done..|].
    unfold rot90_ccw, flip_vertical, transpose.
    by apply Forall_pixels_rev, Forall_pixels_transpose_w.
Qed.

Lemma well_formed_rot180 (v : ndarray) :
  well_formed v → well_formed (on_grid (@rot180) v).
Proof.
  intros Hv. pose proof (well_formed_rect v Hv) as Hr.
  destruct v as [g|c]; simpl in *.
  - destruct Hv as (HH & HW & _).
    eapply well_formed_gray; [| |by apply rect_rot180]; done.
  - pose proof (well_formed_pixels c Hv) as Hpx.
    destruct Hv as (HH & HW & _).
    eapply well_formed_color; [| |by apply rect_rot180|]; [done..|].
    unfold rot180, flip_both.
    by apply Forall_pixels_rev, Forall_pixels_map_rev.
Qed.

Lemma well_formed_mirror (v : ndarray) :
  well_formed v → well_formed (on_grid (@flip_horizontal) v).
Proof.
  intros Hv. pose proof (well_formed_rect v Hv) as Hr.
  destruct v as [g|c]; simpl in *.
  - destruct Hv as (HH & HW & _).
    eapply well_formed_gray; [| |by apply rect_map_rev]; done.
  - pose proof (well_formed_pixels c Hv) as Hpx.
    destruct Hv as (HH & HW & _).
    eapply well_formed_color; [| |by apply rect_map_rev|]; [done..|].
    by apply Forall_pixels_map_rev.
Qed.

Lemma well_formed_paint_value (on : Z → Z → bool) (v : ndarray) :
  well_formed v → well_formed (paint_value on [0; 255; 0] v).
Proof.
  intros Hv. pose proof (well_formed_rect v Hv) as Hr.
  destruct v as [g|c]; simpl in *.
  - destruct Hv as (HH & HW & _).
    eapply well_formed_gray; [| |by apply rect_paint]; done.
  - pose proof (well_formed_pixels c Hv) as Hpx.
    destruct Hv as (HH & HW & _ & HC & _).
    eapply well_formed_color; [| |by apply rect_paint|]; [done..|].
    apply Forall_pixels_paint; [|done]. by rewrite HC.
Qed.

Lemma nchannels_well_formed (v : ndarray) (f : ∀ A, grid A → grid A) :
  well_formed v → well_formed (on_grid f v) →
  nchannels (on_grid f v) = nchannels v.
Proof.
  destruct v as [g|c]; simpl; [done|].
  intros (_ & _ & _ & Hc & _) (_ & _ & _ & Hc' & _). congruence.
Qed.

Lemma rotate_image_alias_run (h : list ndarray) (x : ref) (angle : Z) :
  angle ≠ 90 → angle ≠ 180 → angle ≠ 270 →
  rotate_image x angle h = (Ok x, h).
Proof.
  intros H90 H180 H270. unfold rotate_image.
  destruct (Z.eqb_spec angle 90); [done|].
  destruct (Z.eqb_spec angle 180); [done|].
  by destruct (Z.eqb_spec angle 270).
Qed.

(** Every transform hands back a buffer that satisfies the invariant of
    the data model again, with the channel count and the number of samples
    of its input: rotation by any angle, mirroring, and the grid overlay for
    non-zero cell counts. *)
Theorem transforms_keep_buffers_well_formed (h : list ndarray) (x : ref)
    (v : ndarray) (angle rows cols : Z) :
  h !! x = Some v → well_formed v → rows ≠ 0 → cols ≠ 0 →
  (∃ r h' v', rotate_image x angle h = (Ok r, h') ∧ h' !! r = Some v' ∧
              well_formed v' ∧ nchannels v' = nchannels v ∧
              size v' = size v) ∧
  (∃ r h' v', mirror_image x h = (Ok r, h') ∧ h' !! r = Some v' ∧
              well_formed v' ∧ nchannels v' = nchannels v ∧
              size v' = size v) ∧
  (∃ r h' v', make_grid x rows cols h = (Ok r, h') ∧ h' !! r = Some v' ∧
              well_formed v' ∧ nchannels v' = nchannels v ∧
              size v' = size v).
Proof.
  intros Hx Hv Hrows Hcols.
  assert (∀ v', well_formed v' → nchannels v' = nchannels v →
                (height v' = height v ∧ width v' = width v) ∨
                (height v' = width v ∧ width v' = height v) →
                well_formed v' ∧ nchannels v' = nchannels v ∧
                size v' = size v) as Hsame.
  { intros v' Hv' HC Hdim. split; [done|]. split; [done|].
    rewrite (size_well_formed v' Hv'), (size_well_formed v Hv), HC.
    destruct Hdim as [[-> ->]|[-> ->]]; lia. }
  split; [|split].
  - destruct (decide (angle = 90)) as [->|H90].
    { eexists _, _, _. split; [by apply rotate_image_90|].
      split; [apply lookup_created|]. apply Hsame.
      - by apply well_formed_rot90_cw.
      - apply (nchannels_well_formed v); [done|by apply well_formed_rot90_cw].
      - right. by apply rot90_cw_dimensions. }
    destruct (decide (angle = 180)) as [->|H180].
    { eexists _, _, _. split; [by apply rotate_image_180|].
      split; [apply lookup_created|]. apply Hsame.
      - by apply well_formed_rot180.
      - apply (nchannels_well_formed v); [done|by apply well_formed_rot180].
      - left. by apply rot180_dimensions. }
    destruct (decide (angle = 270)) as [->|H270].
    { eexists _, _, _. split; [by apply rotate_image_270|].
      split; [apply lookup_created|]. apply Hsame.
      - by apply well_formed_rot90_ccw.
      - apply (nchannels_well_formed v); [done|by apply well_formed_rot90_ccw].
      - right. by apply rot90_ccw_dimensions. }
    exists x, h, v. split; [by apply rotate_image_alias_run|].
    split; [done|]. apply Hsame; auto.
  - eexists _, _, _. split; [by apply mirror_image_run|].
    split; [apply lookup_created|]. apply Hsame.
    + by apply well_formed_mirror.
    + apply (nchannels_well_formed v); [done|by apply well_formed_mirror].
    + left. by apply mirror_dimensions.
  - eexists _, _, _.
    split; [apply make_grid_run; [done|by apply well_formed_nchannels|done..]|].
    split; [apply lookup_created|]. apply Hsame.
    + by apply well_formed_paint_value.
    + apply nchannels_paint_value. by apply well_formed_nchannels.
    + left. apply height_width_paint_value.
Qed.

Lemma transforms_keep_buffers_well_formed_witness :
  ∃ r h' v', rotate_image 0%nat 90 [img_2x3] = (Ok r, h') ∧
             h' !! r = Some v' ∧
             well_formed v' ∧ nchannels v' = 3%nat ∧ size v' = 18%nat.
Proof.
  refine (proj1 (transforms_keep_buffers_well_formed [img_2x3] 0%nat img_2x3
                   90 4 4 _ _ _ _)).
  - reflexivity.
  - apply well_formed_img_2x3.
  - lia.
  - lia.
Defined.

(** ** Rotations add up, and the mirror reverses them *)

Lemma rot90_ccw_cw_value (v : ndarray) :
  well_formed v → on_grid (@rot90_ccw) (on_grid (@rot90_cw) v) = v.
Proof.
  intros Hv. pose proof (well_formed_rect v Hv) as Hr.
  destruct Hv as (HH & HW & _).
  destruct v as [g|c]; simpl in *; f_equal; by eapply rot90_ccw_cw.
Qed.

Lemma rot180_value (v : ndarray) :
  well_formed v → on_grid (@rot180) v = quarter_turns 2 v.
Proof.
  intros Hv. pose proof (well_formed_rect v Hv) as Hr.
  destruct Hv as (HH & HW & _).
  destruct v as [g|c]; simpl in *; f_equal; symmetry;
    by eapply rot90_cw_twice.
Qed.

Lemma well_formed_quarter_turns (k : nat) (v : ndarray) :
  well_formed v → well_formed (quarter_turns k v).
Proof.
  intros Hv. induction k as [|k IH]; [done|].
  simpl. by apply well_formed_rot90_cw.
Qed.

Lemma quarter_turns_add (j k : nat) (v : ndarray) :
  quarter_turns j (quarter_turns k v) = quarter_turns (j + k) v.
Proof. unfold quarter_turns. by rewrite Nat.iter_add. Qed.

Lemma quarter_turns_4 (k : nat) (v : ndarray) :
  well_formed v → quarter_turns (k + 4) v = quarter_turns k v.
Proof.
  intros Hv. rewrite <- quarter_turns_add. f_equal.
  by apply rot90_cw_four_times_value.
Qed.

Lemma rot90_ccw_value (v : ndarray) :
  well_formed v → on_grid (@rot90_ccw) v = quarter_turns 3 v.
Proof.
  intros Hv.
  rewrite <- (rot90_ccw_cw_value (quarter_turns 3 v))
    by by apply well_formed_quarter_turns.
  f_equal. symmetry. by apply (rot90_cw_four_times_value v).
Qed.

Lemma rotate_image_quarter_turns (h : list ndarray) (x : ref) (v : ndarray)
    (k : nat) :
  h !! x = Some v → well_formed v → (1 ≤ k ≤ 3)%nat →
  rotate_image x (90 * Z.of_nat k) h
  = (Ok (length h), h ++ [quarter_turns k v]).
Proof.
  intros Hx Hv Hk.
  destruct k as [|[|[|[|k]]]]; [lia| | | |lia]; simpl Z.mul.
  - by apply rotate_image_90.
  - rewrite <- rot180_value by done. by apply rotate_image_180.
  - rewrite <- rot90_ccw_value by done. by apply rotate_image_270.
Qed.

(** Two rotations in a row give the samples of the single call with the
    angles added modulo 360; when the sum is a full turn that call is the
    no-op on angle 0 and the samples are the original's. *)
Theorem rotate_image_angles_add (h : list ndarray) (x : ref) (v : ndarray)
    (a b : Z) :
  h !! x = Some v → well_formed v →
  In a [90; 180; 270] → In b [90; 180; 270] →
  ∃ r h' w,
    (y ← rotate_image x a; rotate_image y b) h = (Ok r, h') ∧
    h' !! r = Some w ∧
    ∃ r1 h1,
      rotate_image x ((a + b) mod 360) h = (Ok r1, h1) ∧ h1 !! r1 = Some w.
Proof.
  intros Hx Hv Ha Hb.
  assert (∃ i, (1 ≤ i ≤ 3)%nat ∧ a = 90 * Z.of_nat i) as (i & Hi & ->).
  { simpl in Ha. destruct Ha as [<-|[<-|[<-|[]]]];
      [exists 1%nat|exists 2%nat|exists 3%nat]; lia. }
  assert (∃ j, (1 ≤ j ≤ 3)%nat ∧ b = 90 * Z.of_nat j) as (j & Hj & ->).
  { simpl in Hb. destruct Hb as [<-|[<-|[<-|[]]]];
      [exists 1%nat|exists 2%nat|exists 3%nat]; lia. }
  exists (S (length h)), ((h ++ [quarter_turns i v])
                          ++ [quarter_turns (j + i) v]),
    (quarter_turns (j + i) v).
  split.
  { rewrite bind_run, (rotate_image_quarter_turns h x v i) by done.
    rewrite (rotate_image_quarter_turns _ _ (quarter_turns i v) j);
      [|apply lookup_created|by apply well_formed_quarter_turns|done].
    rewrite quarter_turns_add, length_app. simpl.
    by replace (length h + 1)%nat with (S (length h)) by lia. }
  split.
  { replace (S (length h)) with (length (h ++ [quarter_turns i v]))
      by (rewrite length_app; simpl; lia).
    apply lookup_created. }
  destruct (decide (j + i = 4)%nat) as [Hfull|Hpart].
  - exists x, h. rewrite Hfull.
    replace ((90 * Z.of_nat i + 90 * Z.of_nat j) mod 360) with 0
      by (replace (90 * Z.of_nat i + 90 * Z.of_nat j) with 360 by lia; done).
    split; [by apply rotate_image_alias_run|].
    by rewrite (rot90_cw_four_times_value v Hv : quarter_turns 4 v = v).
  - destruct (decide (j + i < 4)%nat) as [Hlt|Hge].
    + exists (length h), (h ++ [quarter_turns (j + i) v]).
      rewrite Z.mod_small by lia.
      replace (90 * Z.of_nat i + 90 * Z.of_nat j)
        with (90 * Z.of_nat (j + i)) by lia.
      split; [apply rotate_image_quarter_turns; [done..|lia]|].
      apply lookup_created.
    + assert (∃ k, (1 ≤ k ≤ 2)%nat ∧ (j + i = k + 4)%nat) as (k & Hk & Hsum)
        by (exists (j + i - 4)%nat; lia).
      rewrite Hsum.
      exists (length h), (h ++ [quarter_turns k v]).
      replace ((90 * Z.of_nat i + 90 * Z.of_nat j) mod 360)
        with (90 * Z.of_nat k).
      2:{ replace (90 * Z.of_nat i + 90 * Z.of_nat j)
            with (90 * Z.of_nat k + 1 * 360) by lia.
          rewrite Z.mod_add by lia. rewrite Z.mod_small; lia. }
      split; [apply rotate_image_quarter_turns; [done..|lia]|].
      rewrite quarter_turns_4 by done. apply lookup_created.
Qed.

Lemma rotate_image_angles_add_witness :
  ∃ r h' w,
    (y ← rotate_image 0%nat 270; rotate_image y 180) [img_2x3] = (Ok r, h') ∧
    h' !! r = Some w ∧
    ∃ r1 h1,
      rotate_image 0%nat 90 [img_2x3] = (Ok r1, h1) ∧ h1 !! r1 = Some w.
Proof.
  apply (rotate_image_angles_add [img_2x3] 0%nat img_2x3 270 180).
  - reflexivity.
  - apply well_formed_img_2x3.
  - simpl. auto.
  - simpl. auto.
Defined.

Section MirrorTurns.
Context {A : Type}.
Implicit Types (g : grid A).

Lemma rect_first_row_map_rev H W g :
  rect H W g → (1 ≤ H)%nat →
  transpose (map (@rev A) g) = transpose_w W (map (@rev A) g).
Proof. intros Hg HH. apply (transpose_rect H W); [by apply rect_map_rev|done]. Qed.

Lemma mirror_rot90_cw H W g :
  rect H W g → (1 ≤ H)%nat →
  flip_horizontal (rot90_cw g) = rot90_ccw (flip_horizontal g).
Proof.
  intros Hg HH. unfold rot90_cw, rot90_ccw, flip_vertical.
  rewrite flip_horizontal_involutive.
  unfold flip_horizontal. rewrite (rect_first_row_map_rev H W) by done.
  rewrite (transpose_rect H W) by done.
  destruct Hg as [_ Hrows].
  by rewrite transpose_w_map_rev, rev_involutive.
Qed.

Lemma mirror_rot90_ccw H W g :
  rect H W g → (1 ≤ H)%nat →
  flip_horizontal (rot90_ccw g) = rot90_cw (flip_horizontal g).
Proof.
  intros Hg HH. unfold rot90_cw, rot90_ccw, flip_vertical.
  unfold flip_horizontal. rewrite (rect_first_row_map_rev H W) by done.
  rewrite (transpose_rect H W) by done.
  destruct Hg as [_ Hrows]. by rewrite transpose_w_map_rev.
Qed.

Lemma mirror_rot180 g :
  flip_horizontal (rot180 g) = rot180 (flip_horizontal g).
Proof.
  unfold rot180, flip_both, flip_horizontal. by rewrite map_rev.
Qed.
End MirrorTurns.

(** Mirroring a rotated image is rotating the mirrored image the other
    way: by 270 for 90, by 90 for 270, and by 180 for 180. *)
Theorem mirror_image_reverses_rotation (h : list ndarray) (x : ref)
    (v : ndarray) (a : Z) :
  h !! x = Some v → well_formed v → In a [90; 180; 270] →
  ∃ r h' w,
    (y ← rotate_image x a; mirror_image y) h = (Ok r, h') ∧
    h' !! r = Some w ∧
    ∃ r1 h1,
      (m ← mirror_image x; rotate_image m (360 - a)) h = (Ok r1, h1) ∧
      h1 !! r1 = Some w.
Proof.
  intros Hx Hv Ha. pose proof (well_formed_rect v Hv) as Hr.
  destruct Hv as (HH & HW & _).
  simpl in Ha. destruct Ha as [<-|[<-|[<-|[]]]]; simpl Z.sub.
  - eexists _, _, _. split.
    { rewrite bind_run, (rotate_image_90 h x v Hx).
      apply mirror_image_run, lookup_created. }
    split; [apply lookup_created|]. eexists _, _. split.
    { rewrite bind_run, (mirror_image_run h x v Hx).
      apply rotate_image_270, lookup_created. }
    rewrite lookup_created. f_equal.
    destruct v as [g|c]; simpl in *; f_equal; symmetry;
      by eapply mirror_rot90_cw.
  - eexists _, _, _. split.
    { rewrite bind_run, (rotate_image_180 h x v Hx).
      apply mirror_image_run, lookup_created. }
    split; [apply lookup_created|]. eexists _, _. split.
    { rewrite bind_run, (mirror_image_run h x v Hx).
      apply rotate_image_180, lookup_created. }
    rewrite lookup_created. f_equal.
    destruct v as [g|c]; simpl in *; f_equal; symmetry; apply mirror_rot180.
  - eexists _, _, _. split.
    { rewrite bind_run, (rotate_image_270 h x v Hx).
      apply mirror_image_run, lookup_created. }
    split; [apply lookup_created|]. eexists _, _. split.
    { rewrite bind_run, (mirror_image_run h x v Hx).
      apply rotate_image_90, lookup_created. }
    rewrite lookup_created. f_equal.
    destruct v as [g|c]; simpl in *; f_equal; symmetry;
      by eapply mirror_rot90_ccw.
Qed.

Lemma mirror_image_reverses_rotation_witness :
  ∃ r h' w,
    (y ← rotate_image 0%nat 90; mirror_image y) [img_2x3] = (Ok r, h') ∧
    h' !! r = Some w ∧
    ∃ r1 h1,
      (m ← mirror_image 0%nat; rotate_image m 270) [img_2x3] = (Ok r1, h1) ∧
      h1 !! r1 = Some w.
Proof.
  apply (mirror_image_reverses_rotation [img_2x3] 0%nat img_2x3 90).
  - reflexivity.
  - apply well_formed_img_2x3.
  - simpl. auto.
Defined.

(** ** Object detector: error path, empty results and bounds *)

(** A one-channel buffer is rejected by the first conversion: the detector
    raises the converter's error and creates nothing. *)
Theorem detect_objects_rejects_one_channel (cv : vision) (h : list ndarray)
    (x : ref) (v : ndarray) (min_area : Q) :
  h !! x = Some v → nchannels v = 1%nat →
  detect_objects cv x min_area h = (Raise cv2_error, h).
Proof.
  intros Hx Hc. unfold detect_objects.
  by rewrite bind_run, (cv2_cvtColor_BGR2GRAY_one_channel cv h x v).
Qed.

Lemma detect_objects_rejects_one_channel_witness :
  detect_objects toy 0%nat default_min_area [img_gray_1x1]
  = (Raise cv2_error, [img_gray_1x1]).
Proof.
  apply (detect_objects_rejects_one_channel toy [img_gray_1x1] 0%nat
           img_gray_1x1 default_min_area); reflexivity.
Defined.

Lemma filter_exceeds_none (min_area : Q) (contours : list contour) :
  (∀ k, In k contours → (contourArea k <= min_area)%Q) →
  List.filter (exceeds min_area) contours = [].
Proof.
  intros Hall. induction contours as [|k rest IH]; [done|].
  simpl. destruct (exceeds min_area k) eqn:E.
  - apply exceeds_spec in E. specialize (Hall k (or_introl eq_refl)).
    by apply Qle_not_lt in Hall.
  - apply IH. intros k' Hk'. apply Hall. by right.
Qed.

(** When no contour of the edge map is larger than the minimum (in
    particular when there is no contour at all) the count is 0 and the
    annotated image is an untouched copy of the input, in a new object. *)
Theorem detect_objects_nothing_found (cv : vision) (h : list ndarray)
    (x : ref) (c : grid (list Z)) (min_area : Q) :
  h !! x = Some (Color c) → well_formed (Color c) →
  (∀ k, In k (edge_contours cv c) → (contourArea k <= min_area)%Q) →
  ∃ obj_img h',
    detect_objects cv x min_area h = (Ok (obj_img, 0), h') ∧
    h' !! obj_img = Some (Color c) ∧ obj_img ≠ x.
Proof.
  intros Hx (_ & _ & _ & Hc & _) Hall.
  destruct (detect_objects_run cv h x c min_area Hx Hc)
    as (gray & blur & edges & Hrun).
  rewrite (filter_exceeds_none _ _ Hall) in Hrun. simpl in Hrun.
  eexists _, _. split; [exact Hrun|]. split.
  - change (h ++ [gray; blur; edges; Color c])
      with (h ++ [gray; blur; edges] ++ [Color c]).
    rewrite app_assoc. apply list_lookup_middle.
    rewrite length_app. simpl. lia.
  - apply lookup_lt_Some in Hx. lia.
Qed.

Lemma detect_objects_nothing_found_witness :
  ∃ obj_img h',
    detect_objects toy 0%nat default_min_area [img_block]
      = (Ok (obj_img, 0), h') ∧
    h' !! obj_img = Some img_block ∧ obj_img ≠ 0%nat.
Proof.
  apply (detect_objects_nothing_found toy [img_block] 0%nat grid_block
           default_min_area).
  - reflexivity.
  - apply well_formed_img_block.
  - intros k [<-|[]]. vm_compute. discriminate.
Defined.

Lemma contourArea_nonneg (k : contour) : (0 <= contourArea k)%Q.
Proof. unfold contourArea, Qle. simpl. lia. Qed.

Lemma filter_exceeds_all (min_area : Q) (contours : list contour) :
  (min_area < 0)%Q → List.filter (exceeds min_area) contours = contours.
Proof.
  intros Hneg. induction contours as [|k rest IH]; [done|].
  simpl. rewrite IH.
  assert (exceeds min_area k = true) as ->; [|done].
  apply exceeds_spec. eapply Qlt_le_trans; [done|apply contourArea_nonneg].
Qed.

(** The count lies between 0 and the number of contours of the edge map,
    and a negative minimum lets every contour through. *)
Theorem detect_objects_count_bounds (cv : vision) (h : list ndarray)
    (x : ref) (c : grid (list Z)) (min_area : Q) :
  h !! x = Some (Color c) → well_formed (Color c) →
  ∃ obj_img count h',
    detect_objects cv x min_area h = (Ok (obj_img, count), h') ∧
    0 ≤ count ≤ Z.of_nat (length (edge_contours cv c)) ∧
    ((min_area < 0)%Q → count = Z.of_nat (length (edge_contours cv c))).
Proof.
  intros Hx (_ & _ & _ & Hc & _).
  destruct (detect_objects_run cv h x c min_area Hx Hc)
    as (gray & blur & edges & Hrun).
  eexists _, _, _. split; [exact Hrun|]. split.
  - pose proof (filter_length_le (exceeds min_area) (edge_contours cv c)).
    lia.
  - intros Hneg. by rewrite filter_exceeds_all.
Qed.

Lemma detect_objects_count_bounds_witness :
  ∃ obj_img count h',
    detect_objects toy 0%nat (-1 # 1) [img_block]
      = (Ok (obj_img, count), h') ∧
    0 ≤ count ≤ Z.of_nat (length (edge_contours toy grid_block)) ∧
    ((-1 # 1 < 0)%Q →
     count = Z.of_nat (length (edge_contours toy grid_block))).
Proof.
  apply (detect_objects_count_bounds toy [img_block] 0%nat grid_block (-1 # 1)).
  - reflexivity.
  - apply well_formed_img_block.
Defined.

Lemma contourArea_degenerate (k : contour) :
  (length k ≤ 2)%nat → (contourArea k == 0)%Q.
Proof.
  intros Hlen.
  assert (shoelace k = 0) as Hzero.
  { destruct k as [|[x1 y1] [|[x2 y2] [|p k]]]; simpl in Hlen; [done| | |lia];
      unfold shoelace; simpl; ring. }
  unfold contourArea. by rewrite Hzero.
Qed.

(** A contour of one or two points encloses no area: with a minimum of 0
    or more the loop passes over such contours, drawing nothing and
    leaving the count as it is. *)
Theorem detect_loop_skips_degenerate_contours (cv : vision) (obj_img : ref)
    (min_area : Q) (contours : list contour) (count : Z) (h : list ndarray) :
  (0 <= min_area)%Q → Forall (λ k, (length k ≤ 2)%nat) contours →
  detect_loop cv obj_img min_area contours count h = (Ok count, h).
Proof.
  intros Hmin Hall. induction Hall as [|k rest Hk _ IH]; [done|].
  rewrite detect_loop_cons.
  assert (exceeds min_area k = false) as ->; [|done].
  destruct (exceeds min_area k) eqn:E; [|done].
  apply exceeds_spec in E. rewrite (contourArea_degenerate k Hk) in E.
  by apply Qle_not_lt in Hmin.
Qed.

Lemma detect_loop_skips_degenerate_contours_witness :
  detect_loop toy 0%nat 0 [[(3, 4)]; [(1, 1); (5, 9)]] 7 [img_2x3]
  = (Ok 7, [img_2x3]).
Proof.
  apply (detect_loop_skips_degenerate_contours toy 0%nat 0).
  - unfold Qle. simpl. lia.
  - repeat constructor.
Defined.

(** ** The shell: loading, showing and the script *)

Lemma ui_bind_run {A B} (m : UI A) (f : A → UI B) (path : list nat)
    (w : list element * list ndarray) :
  (m ≫= f) path w =
  match m path w with
  | (Ok a, w') => f a path w'
  | (Raise e, w') => (Raise e, w')
  end.
Proof. reflexivity. Qed.

Lemma core_run {A} (m : M A) (path : list nat) (scr : list element)
    (h h' : list ndarray) (r : result A) :
  m h = (r, h') → core m path (scr, h) = (r, (scr, h')).
Proof. intros Hm. unfold core. simpl. by rewrite Hm. Qed.

Lemma emit_run (wd : widget) (path : list nat) (scr : list element)
    (h : list ndarray) :
  emit wd path (scr, h) = (Ok (), (scr ++ [(path, wd)], h)).
Proof. reflexivity. Qed.

Lemma st_image_run (image : ref) (v : ndarray) (caption : option string)
    (ucw clamp : bool) (path : list nat) (scr : list element)
    (h : list ndarray) :
  h !! image = Some v →
  st_image image caption ucw clamp path (scr, h)
  = (Ok (), (scr ++ [(path, Picture v caption ucw clamp)], h)).
Proof.
  intros Himg. unfold st_image.
  by rewrite ui_bind_run, (core_run _ _ _ _ _ _ (load_run h image v Himg)).
Qed.

Lemma nchannels_3_color (v : ndarray) :
  nchannels v = 3%nat → ∃ c, v = Color c ∧ pixel_channels c = 3%nat.
Proof. destruct v as [g|c]; [done|]. intros Hc. by exists c. Qed.

Lemma cv2_cvtColor_BGR2RGB_run (h : list ndarray) (src : ref) (v : ndarray) :
  h !! src = Some v → nchannels v = 3%nat →
  cv2_cvtColor_BGR2RGB src h = (Ok (length h), h ++ [swap_value v]).
Proof.
  intros Hsrc (c & -> & Hc)%nchannels_3_color. unfold cv2_cvtColor_BGR2RGB.
  rewrite bind_run, (load_run h src _ Hsrc). by rewrite Hc.
Qed.

Lemma cv2_cvtColor_BGR2RGB_one_channel (h : list ndarray) (src : ref)
    (v : ndarray) :
  h !! src = Some v → nchannels v = 1%nat →
  cv2_cvtColor_BGR2RGB src h = (Raise cv2_error, h).
Proof.
  intros Hsrc Hc. unfold cv2_cvtColor_BGR2RGB.
  rewrite bind_run, (load_run h src _ Hsrc).
  destruct v as [g|c]; [done|]. simpl in Hc. by rewrite Hc.
Qed.

Lemma swap_rb_involutive (px : list Z) :
  length px = 3%nat → swap_rb (swap_rb px) = px.
Proof. by destruct px as [|c0 [|c1 [|c2 [|c3 px]]]]. Qed.

Lemma swap_value_involutive (v : ndarray) :
  well_formed v → swap_value (swap_value v) = v.
Proof.
  destruct v as [g|c]; [done|]. intros Hv%well_formed_pixels.
  simpl. f_equal. rewrite map_map.
  induction Hv as [|row rows Hrow _ IH]; [done|].
  simpl. rewrite IH. f_equal. rewrite map_map.
  induction Hrow as [|px row Hpx _ IHrow]; [done|].
  simpl. by rewrite IHrow, swap_rb_involutive.
Qed.

Lemma length_swap_rb (px : list Z) :
  length px = 3%nat → length (swap_rb px) = 3%nat.
Proof. by destruct px as [|c0 [|c1 [|c2 [|c3 px]]]]. Qed.

Lemma well_formed_swap_value (v : ndarray) :
  well_formed v → well_formed (swap_value v).
Proof.
  intros Hv. destruct v as [g|c]; [done|].
  pose proof (well_formed_pixels c Hv) as Hpx.
  pose proof (well_formed_rect _ Hv) as Hr.
  destruct Hv as (HH & HW & _). simpl in *.
  eapply well_formed_color; [exact HH|exact HW| |].
  - destruct Hr as [Hlen Hrows]. split; [by rewrite length_map|].
    apply Forall_map. eapply Forall_impl; [done|].
    intros row. simpl. by rewrite length_map.
  - apply Forall_map. eapply Forall_impl; [done|].
    intros row Hrow. simpl. apply Forall_map.
    eapply Forall_impl; [done|]. intros px. apply length_swap_rb.
Qed.

Lemma well_formed_nchannels_3 (c : grid (list Z)) :
  well_formed (Color c) → nchannels (Color c) = 3%nat.
Proof. by intros (_ & _ & _ & Hc & _). Qed.

Section ShellFacts.
Context (cv : vision) {file : Type} (pil_open_rgb : file → option ndarray).

Lemma load_image_bgr_run (h : list ndarray) (f : file) (c : grid (list Z)) :
  pil_open_rgb f = Some (Color c) → well_formed (Color c) →
  load_image_bgr pil_open_rgb f h
  = (Ok (S (length h)), h ++ [Color c; swap_value (Color c)]).
Proof.
  intros Hopen Hv. unfold load_image_bgr, cv2_cvtColor_RGB2BGR.
  rewrite Hopen, bind_run. unfold alloc at 1.
  rewrite bind_run, (cv2_cvtColor_BGR2RGB_run _ _ (Color c));
    [|apply lookup_created|by apply well_formed_nchannels_3].
  rewrite length_app, <- app_assoc. simpl.
  by replace (length h + 1)%nat with (S (length h)) by lia.
Qed.

Lemma show_image_bgr_run (h : list ndarray) (img_bgr : ref) (v : ndarray)
    (caption : option string) (path : list nat) (scr : list element) :
  h !! img_bgr = Some v → nchannels v = 3%nat →
  show_image_bgr img_bgr caption path (scr, h)
  = (Ok (), (scr ++ [(path, Picture (swap_value v) caption true false)],
             h ++ [swap_value v])).
Proof.
  intros Himg Hc. unfold show_image_bgr.
  rewrite ui_bind_run,
    (core_run _ _ _ _ _ _ (cv2_cvtColor_BGR2RGB_run h img_bgr v Himg Hc)).
  apply st_image_run, lookup_created.
Qed.

(** What is loaded and then shown is what was uploaded: the picture on the
    page is the decoded RGB array, sample for sample; the round trip costs
    three objects and touches no other. *)
Theorem load_then_show_round_trip (f : file) (c : grid (list Z))
    (caption : option string) (path : list nat) (scr : list element)
    (h : list ndarray) :
  pil_open_rgb f = Some (Color c) → well_formed (Color c) →
  (img_bgr ← core (load_image_bgr pil_open_rgb f);
   show_image_bgr img_bgr caption) path (scr, h)
  = (Ok (), (scr ++ [(path, Picture (Color c) caption true false)],
             h ++ [Color c; swap_value (Color c); Color c])).
Proof.
  intros Hopen Hv.
  rewrite ui_bind_run,
    (core_run _ _ _ _ _ _ (load_image_bgr_run h f c Hopen Hv)).
  rewrite (show_image_bgr_run _ _ (swap_value (Color c))).
  - rewrite swap_value_involutive by done.
    by rewrite <- app_assoc.
  - change (h ++ [Color c; swap_value (Color c)])
      with (h ++ [Color c] ++ [swap_value (Color c)]).
    rewrite app_assoc. apply list_lookup_middle.
    rewrite length_app. simpl. lia.
  - apply (well_formed_nchannels_3 (map (map swap_rb) c)).
    by apply (well_formed_swap_value (Color c)).
Qed.

(** [show_image_bgr] is for colour arrays only: on a one-channel array the
    conversion raises, nothing is rendered and nothing is created. *)
Theorem show_image_bgr_rejects_one_channel (h : list ndarray) (img : ref)
    (v : ndarray) (caption : option string) (path : list nat)
    (scr : list element) :
  h !! img = Some v → nchannels v = 1%nat →
  show_image_bgr img caption path (scr, h) = (Raise cv2_error, (scr, h)).
Proof.
  intros Himg Hc. unfold show_image_bgr.
  by rewrite ui_bind_run,
    (core_run _ _ _ _ _ _ (cv2_cvtColor_BGR2RGB_one_channel h img v Himg Hc)).
Qed.
End ShellFacts.

Lemma well_formed_img_rgb_2x3 : well_formed img_rgb_2x3.
Proof. solve_well_formed. Qed.

Lemma load_then_show_round_trip_witness :
  (img_bgr ← core (load_image_bgr (λ f : ndarray, Some f) img_rgb_2x3);
   show_image_bgr img_bgr None) [] ([], [])
  = (Ok (), ([([], Picture img_rgb_2x3 None true false)],
             [img_rgb_2x3; img_2x3; img_rgb_2x3])).
Proof.
  apply (load_then_show_round_trip (λ f : ndarray, Some f) img_rgb_2x3
           [[[30; 20; 10]; [60; 50; 40]; [30; 20; 10]];
            [[60; 50; 40]; [30; 20; 10]; [60; 50; 40]]] None [] [] []).
  - reflexivity.
  - apply well_formed_img_rgb_2x3.
Defined.

Lemma show_image_bgr_rejects_one_channel_witness :
  show_image_bgr 0%nat None [] ([], [img_gray_1x1])
  = (Raise cv2_error, ([], [img_gray_1x1])).
Proof.
  apply (show_image_bgr_rejects_one_channel [img_gray_1x1] 0%nat img_gray_1x1);
    reflexivity.
Defined.

(** *** Blocks of the script *)

Lemma tagged_pictures_app (e1 e2 : list element) :
  tagged_pictures (e1 ++ e2) = tagged_pictures e1 ++ tagged_pictures e2.
Proof. unfold tagged_pictures. apply flat_map_app. Qed.

Lemma shows_pictures (tab : UI unit) (x : ref) (v : ndarray)
    (rel rel' : list (list nat * ndarray)) :
  shows tab x v rel → rel = rel' → shows tab x v rel'.
Proof. by intros Htab <-. Qed.

Lemma shows_ext (t1 t2 : UI unit) (x : ref) (v : ndarray)
    (rel : list (list nat * ndarray)) :
  (∀ path w, t1 path w = t2 path w) → shows t1 x v rel → shows t2 x v rel.
Proof.
  intros Heq Ht path scr h Hx. rewrite <- Heq. by apply Ht.
Qed.

Lemma shows_seq (t1 t2 : UI unit) (x : ref) (v : ndarray)
    (rel1 rel2 : list (list nat * ndarray)) :
  shows t1 x v rel1 → shows t2 x v rel2 → shows (t1;; t2) x v (rel1 ++ rel2).
Proof.
  intros H1 H2 path scr h Hx.
  destruct (H1 path scr h Hx) as (evs1 & created1 & Hrun1 & Hpics1).
  destruct (H2 path (scr ++ evs1) (h ++ created1)) as
    (evs2 & created2 & Hrun2 & Hpics2); [by apply lookup_app_l_Some|].
  exists (evs1 ++ evs2), (created1 ++ created2).
  rewrite ui_bind_run, Hrun1, Hrun2, !app_assoc. split; [done|].
  by rewrite tagged_pictures_app, Hpics1, Hpics2, map_app.
Qed.

Lemma shows_seq_assoc {A} (m : UI A) (f : A → UI unit) (rest : UI unit)
    (x : ref) (v : ndarray) (rel : list (list nat * ndarray)) :
  shows ((m ≫= f);; rest) x v rel → shows (a ← m; f a;; rest) x v rel.
Proof.
  apply shows_ext. intros path w. rewrite !ui_bind_run.
  by destruct (m path w) as [[a|e] w'].
Qed.

Lemma shows_within (i : nat) (tab : UI unit) (x : ref) (v : ndarray)
    (rel : list (list nat * ndarray)) :
  shows tab x v rel →
  shows (within i tab) x v (map (λ t, (i :: t.1, t.2)) rel).
Proof.
  intros Htab path scr h Hx.
  destruct (Htab (path ++ [i]) scr h Hx) as (evs & created & Hrun & Hpics).
  exists evs, created. split; [done|].
  rewrite Hpics, map_map. apply map_ext. intros [p img]. simpl.
  by rewrite <- app_assoc.
Qed.

Lemma shows_emit (wd : widget) (x : ref) (v : ndarray) :
  match wd with Picture _ _ _ _ => False | _ => True end →
  shows (emit wd) x v [].
Proof.
  intros Hwd path scr h Hx. exists [(path, wd)], [].
  rewrite emit_run, app_nil_r. split; [done|]. by destruct wd.
Qed.

Lemma shows_write_properties (props : pydict) (x : ref) (v : ndarray) :
  shows (write_properties props) x v [].
Proof.
  unfold write_properties. induction props as [|[k val] props IH].
  - intros path scr h Hx. exists [], []. by rewrite !app_nil_r.
  - apply (shows_seq _ _ _ _ [] []); [by apply shows_emit|apply IH].
Qed.

Lemma get_properties_run (h : list ndarray) (x : ref) (v : ndarray) :
  h !! x = Some v → ∃ props, get_properties x h = (Ok props, h).
Proof.
  intros Hx. eexists. unfold get_properties.
  by rewrite bind_run, (load_run h x v Hx).
Qed.

(** A call that leaves a new three-channel array, followed by its display. *)
Lemma shows_transform (m : M ref) (caption : option string) (x : ref)
    (v out : ndarray) :
  (∀ h, h !! x = Some v →
        ∃ r created, m h = (Ok r, h ++ created) ∧
                     (h ++ created) !! r = Some out) →
  nchannels out = 3%nat →
  shows (r ← core m; show_image_bgr r caption) x v [([], swap_value out)].
Proof.
  intros Hm Hc path scr h Hx.
  destruct (Hm h Hx) as (r & created & Hrun & Hr).
  exists [(path, Picture (swap_value out) caption true false)],
         (created ++ [swap_value out]).
  rewrite ui_bind_run, (core_run _ _ _ _ _ _ Hrun).
  rewrite (show_image_bgr_run _ _ out) by done.
  rewrite app_assoc. split; [done|]. simpl. by rewrite app_nil_r.
Qed.

Lemma shows_show_image_bgr (caption : option string) (x : ref) (v : ndarray) :
  nchannels v = 3%nat →
  shows (show_image_bgr x caption) x v [([], swap_value v)].
Proof.
  intros Hc path scr h Hx.
  exists [(path, Picture (swap_value v) caption true false)], [swap_value v].
  rewrite (show_image_bgr_run _ _ v) by done.
  split; [done|]. simpl. by rewrite app_nil_r.
Qed.

Section Blocks.
Context (cv : vision) (x : ref) (c : grid (list Z)).
Hypothesis Hwf : well_formed (Color c).

Lemma shows_grayscale (caption : option string) :
  shows (gray ← core (to_grayscale cv x); st_image gray caption true true)
    x (Color c) [([], gray_value cv (Color c))].
Proof.
  intros path scr h Hx.
  exists [(path, Picture (gray_value cv (Color c)) caption true true)],
         [gray_value cv (Color c)].
  pose proof (cv2_cvtColor_BGR2GRAY_color cv h x c Hx
                (well_formed_nchannels_3 c Hwf)) as Hrun.
  rewrite <- to_grayscale_run in Hrun.
  rewrite ui_bind_run, (core_run _ _ _ _ _ _ Hrun).
  rewrite (st_image_run _ (gray_value cv (Color c))) by apply lookup_created.
  split; [done|]. simpl. by rewrite app_nil_r.
Qed.

Lemma shows_properties :
  shows (props ← core (get_properties x); write_properties props)
    x (Color c) [].
Proof.
  intros path scr h Hx.
  destruct (get_properties_run h x (Color c) Hx) as (props & Hrun).
  destruct (shows_write_properties props x (Color c) path scr h Hx)
    as (evs & created & Hw & Hpics).
  exists evs, created.
  by rewrite ui_bind_run, (core_run _ _ _ _ _ _ Hrun).
Qed.

Lemma nchannels_rotated_value (angle : Z) :
  nchannels (rotated_value angle (Color c)) = 3%nat.
Proof.
  unfold rotated_value.
  repeat (match goal with
          | |- context [if ?b then _ else _] => destruct b
          end;
          [apply (well_formed_nchannels_3 _);
             first [by apply (well_formed_rot90_cw (Color c))
                   |by apply (well_formed_rot180 (Color c))
                   |by apply (well_formed_rot90_ccw (Color c))]|]).
  by apply well_formed_nchannels_3.
Qed.

Lemma rotate_image_value (angle : Z) (h : list ndarray) :
  h !! x = Some (Color c) →
  ∃ r created,
    rotate_image x angle h = (Ok r, h ++ created) ∧
    (h ++ created) !! r = Some (rotated_value angle (Color c)).
Proof.
  intros Hx. unfold rotate_image, rotated_value.
  repeat (match goal with
          | |- context [if ?b then _ else _] => destruct b
          end;
          [eexists _, _; split;
             [by apply cv2_rotate_run|apply lookup_created]|]).
  exists x, []. by rewrite app_nil_r.
Qed.

Lemma shows_rotate (angle : Z) (caption : option string) :
  shows (r ← core (rotate_image x angle); show_image_bgr r caption)
    x (Color c) [([], swap_value (rotated_value angle (Color c)))].
Proof.
  apply shows_transform;
    [apply rotate_image_value|apply nchannels_rotated_value].
Qed.

Lemma shows_mirror (caption : option string) :
  shows (r ← core (mirror_image x); show_image_bgr r caption)
    x (Color c)
    [([], swap_value (on_grid (@flip_horizontal) (Color c)))].
Proof.
  apply shows_transform.
  - intros h Hx. eexists _, _.
    split; [by apply mirror_image_run|apply lookup_created].
  - apply (well_formed_nchannels_3 _).
    by apply (well_formed_mirror (Color c)).
Qed.

Lemma shows_grid (caption : option string) :
  shows (r ← core (make_grid x 4 4); show_image_bgr r caption)
    x (Color c) [([], swap_value (grid_value 4 4 (Color c)))].
Proof.
  apply shows_transform.
  - intros h Hx. eexists _, _. split; [|apply lookup_created].
    apply make_grid_run; [done|by apply well_formed_nchannels|done..].
  - unfold grid_value. rewrite nchannels_paint_value
      by by apply well_formed_nchannels.
    by apply well_formed_nchannels_3.
Qed.

Lemma nchannels_fold_draw_box (ks : list contour) (v : ndarray) :
  (nchannels v ≤ 4)%nat →
  nchannels (fold_left (draw_box cv) ks v) = nchannels v.
Proof.
  revert v. induction ks as [|k ks IH]; intros v Hv; [done|].
  simpl. rewrite IH by (by rewrite draw_box_nchannels).
  by apply draw_box_nchannels.
Qed.

Lemma shows_detect (text : Z → string) (caption : option string) :
  shows ('(obj_img, count) ← core (detect_objects cv x default_min_area);
         st_write (text count);;
         show_image_bgr obj_img caption)
    x (Color c)
    [([], swap_value (annotated_value cv default_min_area (Color c)))].
Proof.
  intros path scr h Hx.
  destruct (detect_objects_run cv h x c default_min_area Hx
              (well_formed_nchannels_3 c Hwf))
    as (gray & blur & edges & Hrun).
  set (out := annotated_value cv default_min_area (Color c)).
  set (count := Z.of_nat (length (List.filter (exceeds default_min_area)
                                    (edge_contours cv c)))) in *.
  exists [(path, Markdown (text count));
          (path, Picture (swap_value out) caption true false)],
         [gray; blur; edges; out; swap_value out].
  rewrite ui_bind_run, (core_run _ _ _ _ _ _ Hrun).
  rewrite ui_bind_run. unfold st_write. rewrite emit_run.
  rewrite (show_image_bgr_run _ _ out).
  - rewrite <- !app_assoc. split; [done|]. simpl. by rewrite app_nil_r.
  - change (h ++ [gray; blur; edges; ?f]) with (h ++ [gray; blur; edges] ++ [f]).
    rewrite app_assoc. apply list_lookup_middle.
    rewrite length_app. simpl. lia.
  - unfold out. simpl. rewrite nchannels_fold_draw_box;
      [by apply well_formed_nchannels_3|by apply well_formed_nchannels].
Qed.
End Blocks.

(** *** The tabs and the script *)

Lemma shows_radio (label : string) (options : list Z) (index : Z)
    (horizontal : bool) (choice : Z) (f : Z → UI unit) (x : ref)
    (v : ndarray) (rel : list (list nat * ndarray)) :
  shows (emit (Radio label options index horizontal);; f choice) x v rel →
  shows (angle ← st_radio label options index horizontal choice; f angle)
    x v rel.
Proof. apply shows_ext. intros path w. reflexivity. Qed.

Ltac shows_text :=
  apply (shows_seq _ _ _ _ []); [by apply shows_emit|].

Section Tabs.
Context (cv : vision) (x : ref) (c : grid (list Z)).
Hypothesis Hwf : well_formed (Color c).

Lemma shows_tab_show :
  shows (tab_show x) x (Color c) [([], swap_value (Color c))].
Proof.
  unfold tab_show, st_subheader. shows_text.
  apply shows_show_image_bgr. by apply well_formed_nchannels_3.
Qed.

Lemma shows_tab_grayscale :
  shows (tab_grayscale cv x) x (Color c) [([], gray_value cv (Color c))].
Proof.
  unfold tab_grayscale, st_subheader. shows_text. by apply shows_grayscale.
Qed.

Lemma shows_tab_properties : shows (tab_properties x) x (Color c) [].
Proof.
  unfold tab_properties, st_subheader. shows_text. apply shows_properties.
Qed.

Lemma shows_tab_rotate (choice : Z) :
  shows (tab_rotate x choice) x (Color c)
    [([], swap_value (rotated_value choice (Color c)))].
Proof.
  unfold tab_rotate, st_subheader. shows_text.
  apply shows_radio. shows_text. by apply shows_rotate.
Qed.

Lemma shows_tab_mirror :
  shows (tab_mirror x) x (Color c)
    [([], swap_value (on_grid (@flip_horizontal) (Color c)))].
Proof.
  unfold tab_mirror, st_subheader. shows_text. by apply shows_mirror.
Qed.

Lemma shows_tab_grid :
  shows (tab_grid x) x (Color c) [([], swap_value (grid_value 4 4 (Color c)))].
Proof.
  unfold tab_grid, st_subheader. shows_text. by apply shows_grid.
Qed.

Lemma shows_tab_detect :
  shows (tab_detect cv x) x (Color c)
    [([], swap_value (annotated_value cv default_min_area (Color c)))].
Proof.
  unfold tab_detect, st_subheader. shows_text.
  by apply (shows_detect cv x c Hwf
              (λ count, ("**Approximate number of detected objects:** "
                         ++ z_str count)%string)).
Qed.

Lemma shows_tab_all :
  shows (tab_all cv x) x (Color c)
    [ ([], swap_value (Color c));
      ([], gray_value cv (Color c));
      ([0%nat], swap_value (rotated_value 90 (Color c)));
      ([1%nat], swap_value (rotated_value 180 (Color c)));
      ([2%nat], swap_value (rotated_value 270 (Color c)));
      ([], swap_value (on_grid (@flip_horizontal) (Color c)));
      ([], swap_value (grid_value 4 4 (Color c)));
      ([], swap_value (annotated_value cv default_min_area (Color c))) ].
Proof.
  unfold tab_all, st_subheader, st_write, st_columns.
  eapply shows_pictures.
  { shows_text. shows_text.
    eapply shows_seq;
      [apply shows_show_image_bgr; by apply well_formed_nchannels_3|].
    shows_text.
    apply shows_seq_assoc. eapply shows_seq; [by apply shows_grayscale|].
    shows_text.
    apply shows_seq_assoc. eapply shows_seq; [by apply shows_properties|].
    shows_text. shows_text.
    eapply shows_seq; [by apply shows_within, shows_rotate|].
    eapply shows_seq; [by apply shows_within, shows_rotate|].
    eapply shows_seq; [by apply shows_within, shows_rotate|].
    shows_text.
    apply shows_seq_assoc. eapply shows_seq; [by apply shows_mirror|].
    shows_text.
    apply shows_seq_assoc. eapply shows_seq; [by apply shows_grid|].
    shows_text.
    by apply (shows_detect cv x c Hwf
                (λ count, ("**Objects detected:** " ++ z_str count)%string)). }
  reflexivity.
Qed.

Lemma shows_tabs (choice : Z) :
  shows (st_tabs tab_labels;;
         within 0 (tab_show x);;
         within 1 (tab_grayscale cv x);;
         within 2 (tab_properties x);;
         within 3 (tab_rotate x choice);;
         within 4 (tab_mirror x);;
         within 5 (tab_grid x);;
         within 6 (tab_detect cv x);;
         within 7 (tab_all cv x)) x (Color c)
    [ ([0%nat], swap_value (Color c));
      ([1%nat], gray_value cv (Color c));
      ([3%nat], swap_value (rotated_value choice (Color c)));
      ([4%nat], swap_value (on_grid (@flip_horizontal) (Color c)));
      ([5%nat], swap_value (grid_value 4 4 (Color c)));
      ([6%nat], swap_value (annotated_value cv default_min_area (Color c)));
      ([7%nat], swap_value (Color c));
      ([7%nat], gray_value cv (Color c));
      ([7; 0]%nat, swap_value (rotated_value 90 (Color c)));
      ([7; 1]%nat, swap_value (rotated_value 180 (Color c)));
      ([7; 2]%nat, swap_value (rotated_value 270 (Color c)));
      ([7%nat], swap_value (on_grid (@flip_horizontal) (Color c)));
      ([7%nat], swap_value (grid_value 4 4 (Color c)));
      ([7%nat], swap_value (annotated_value cv default_min_area (Color c))) ].
Proof.
  unfold st_tabs. eapply shows_pictures.
  { shows_text.
    eapply shows_seq; [apply shows_within, shows_tab_show|].
    eapply shows_seq; [apply shows_within, shows_tab_grayscale|].
    eapply shows_seq; [apply shows_within, shows_tab_properties|].
    eapply shows_seq; [apply shows_within, shows_tab_rotate|].
    eapply shows_seq; [apply shows_within, shows_tab_mirror|].
    eapply shows_seq; [apply shows_within, shows_tab_grid|].
    eapply shows_seq; [apply shows_within, shows_tab_detect|].
    apply shows_within, shows_tab_all. }
  reflexivity.
Qed.
End Tabs.

Lemma rotated_value_cases (angle : Z) (v : ndarray) :
  rotated_value angle v = rotated_value 90 v ∨
  rotated_value angle v = rotated_value 180 v ∨
  rotated_value angle v = rotated_value 270 v ∨
  rotated_value angle v = v.
Proof.
  unfold rotated_value.
  destruct (Z.eqb_spec angle 90) as [->|_]; [by left|].
  destruct (Z.eqb_spec angle 180) as [->|_]; [right; by left|].
  destruct (Z.eqb_spec angle 270) as [->|_]; [right; right; by left|].
  right; right; by right.
Qed.

Section Script.
Context (cv : vision) {file : Type} (pil_open_rgb : file → option ndarray).

Lemma app_upload_run (f : file) (c : grid (list Z)) (choice : Z)
    (scr : list element) (h : list ndarray) :
  pil_open_rgb f = Some (Color c) → well_formed (Color c) →
  app cv pil_open_rgb (Some f) choice [] (scr, h)
  = (st_tabs tab_labels;;
     within 0 (tab_show (S (length h)));;
     within 1 (tab_grayscale cv (S (length h)));;
     within 2 (tab_properties (S (length h)));;
     within 3 (tab_rotate (S (length h)) choice);;
     within 4 (tab_mirror (S (length h)));;
     within 5 (tab_grid (S (length h)));;
     within 6 (tab_detect cv (S (length h)));;
     within 7 (tab_all cv (S (length h)))) []
      (scr ++ [([], Title "Basic Image Processing App 🧠📷");
               ([], Markdown
                  "Practical 1 – Deep Learning (Basic Image Processing)");
               ([], FileUploader "Upload a JPG image"
                      ["jpg"; "jpeg"; "png"]%string)],
       h ++ [Color c; Color (map (map swap_rb) c)]).
Proof.
  intros Hopen Hv. unfold app, st_title, st_write, st_file_uploader.
  rewrite ui_bind_run, emit_run. rewrite ui_bind_run, emit_run.
  rewrite ui_bind_run, ui_bind_run, emit_run.
  unfold mret at 1, UI_ret at 1.
  rewrite ui_bind_run,
    (core_run _ _ _ _ _ _ (load_image_bgr_run pil_open_rgb h f c Hopen Hv)).
  by rewrite <- !app_assoc.
Qed.

Lemma app_run (f : file) (c : grid (list Z)) (choice : Z)
    (scr : list element) (h : list ndarray) :
  pil_open_rgb f = Some (Color c) → well_formed (Color c) →
  ∃ evs created,
    app cv pil_open_rgb (Some f) choice [] (scr, h)
      = (Ok (), (scr ++ evs, h ++ created)) ∧
    tagged_pictures evs =
      [ ([0%nat], Color c);
        ([1%nat], gray_value cv (swap_value (Color c)));
        ([3%nat], swap_value (rotated_value choice (swap_value (Color c))));
        ([4%nat], swap_value (on_grid (@flip_horizontal)
                               (swap_value (Color c))));
        ([5%nat], swap_value (grid_value 4 4 (swap_value (Color c))));
        ([6%nat], swap_value (annotated_value cv default_min_area
                               (swap_value (Color c))));
        ([7%nat], Color c);
        ([7%nat], gray_value cv (swap_value (Color c)));
        ([7; 0]%nat, swap_value (rotated_value 90 (swap_value (Color c))));
        ([7; 1]%nat, swap_value (rotated_value 180 (swap_value (Color c))));
        ([7; 2]%nat, swap_value (rotated_value 270 (swap_value (Color c))));
        ([7%nat], swap_value (on_grid (@flip_horizontal)
                               (swap_value (Color c))));
        ([7%nat], swap_value (grid_value 4 4 (swap_value (Color c))));
        ([7%nat], swap_value (annotated_value cv default_min_area
                               (swap_value (Color c)))) ].
Proof.
  intros Hopen Hv.
  pose proof (well_formed_swap_value (Color c) Hv) as Hbgr.
  pose proof (swap_value_involutive (Color c) Hv) as Hback.
  simpl swap_value in Hbgr, Hback.
  rewrite (app_upload_run f c choice scr h Hopen Hv).
  destruct (shows_tabs cv (S (length h)) (map (map swap_rb) c) Hbgr choice []
              (scr ++ [([], Title "Basic Image Processing App 🧠📷");
                       ([], Markdown
                          "Practical 1 – Deep Learning (Basic Image Processing)");
                       ([], FileUploader "Upload a JPG image"
                              ["jpg"; "jpeg"; "png"]%string)])
              (h ++ [Color c; Color (map (map swap_rb) c)]))
    as (evs & created & Hrun & Hpics).
  { change (h ++ [Color c; ?b]) with (h ++ [Color c] ++ [b]).
    rewrite app_assoc. apply list_lookup_middle.
    rewrite length_app. simpl. lia. }
  eexists _, _. split.
  - rewrite Hrun, <- !app_assoc. reflexivity.
  - rewrite !tagged_pictures_app, Hpics. simpl. by rewrite Hback.
Qed.

(** For an upload PIL decodes to a well-formed RGB array, and whatever the
    radio holds, the script runs to its end without an exception; it only
    adds to the page and to the store, and the one picture of the first
    tab is the uploaded array itself, sample for sample. *)
Theorem app_completes_and_shows_the_upload (f : file) (c : grid (list Z))
    (choice : Z) (scr : list element) (h : list ndarray) :
  pil_open_rgb f = Some (Color c) → well_formed (Color c) →
  ∃ evs created,
    app cv pil_open_rgb (Some f) choice [] (scr, h)
      = (Ok (), (scr ++ evs, h ++ created)) ∧
    pictures_in (in_tab 0) evs = [Color c].
Proof.
  intros Hopen Hv.
  destruct (app_run f c choice scr h Hopen Hv) as (evs & created & Hrun & Hpics).
  exists evs, created. split; [done|].
  unfold pictures_in. by rewrite Hpics.
Qed.

(** Every picture shown in one of the first seven tabs is shown again,
    identical, in the combined tab: the operations run there on the same
    unmodified image.  This holds for any radio value, since the combined
    tab holds all three rotations and the original. *)
Theorem app_combined_tab_repeats_the_tabs (f : file) (c : grid (list Z))
    (choice : Z) (scr : list element) (h : list ndarray) :
  pil_open_rgb f = Some (Color c) → well_formed (Color c) →
  ∃ evs created,
    app cv pil_open_rgb (Some f) choice [] (scr, h)
      = (Ok (), (scr ++ evs, h ++ created)) ∧
    ∀ image, In image (pictures_in in_single_tab evs) →
             In image (pictures_in in_combined_tab evs).
Proof.
  intros Hopen Hv.
  destruct (app_run f c choice scr h Hopen Hv) as (evs & created & Hrun & Hpics).
  exists evs, created. split; [done|].
  pose proof (swap_value_involutive (Color c) Hv) as Hback.
  unfold pictures_in. rewrite Hpics. clear Hpics Hrun.
  set (bgr := swap_value (Color c)) in *.
  cbn [List.filter in_single_tab in_combined_tab fst snd map
       Nat.ltb Nat.leb Nat.eqb].
  intros image Himage. cbn [In] in *.
  destruct Himage as [<-|[<-|[<-|[<-|[<-|[<-|[]]]]]]]; auto 10.
  destruct (rotated_value_cases choice bgr) as [-> | [-> | [-> | ->]]]; auto 10.
Qed.
End Script.

Lemma app_completes_and_shows_the_upload_witness :
  ∃ evs created,
    app toy (λ f : ndarray, Some f) (Some img_rgb_2x3) 180 [] ([], [])
      = (Ok (), ([] ++ evs, [] ++ created)) ∧
    pictures_in (in_tab 0) evs = [img_rgb_2x3].
Proof.
  apply (app_completes_and_shows_the_upload toy (λ f : ndarray, Some f)
           img_rgb_2x3
           [[[30; 20; 10]; [60; 50; 40]; [30; 20; 10]];
            [[60; 50; 40]; [30; 20; 10]; [60; 50; 40]]] 180 [] []).
  - reflexivity.
  - apply well_formed_img_rgb_2x3.
Defined.

Lemma app_combined_tab_repeats_the_tabs_witness :
  ∃ evs created,
    app toy (λ f : ndarray, Some f) (Some img_rgb_2x3) 45 [] ([], [])
      = (Ok (), ([] ++ evs, [] ++ created)) ∧
    ∀ image, In image (pictures_in in_single_tab evs) →
             In image (pictures_in in_combined_tab evs).
Proof.
  apply (app_combined_tab_repeats_the_tabs toy (λ f : ndarray, Some f)
           img_rgb_2x3
           [[[30; 20; 10]; [60; 50; 40]; [30; 20; 10]];
            [[60; 50; 40]; [30; 20; 10]; [60; 50; 40]]] 45 [] []).
  - reflexivity.
  - apply well_formed_img_rgb_2x3.
Defined.
